(** * improver.utilities.neighbourhood_tools

    A shallow embedding of [rolling_window], [pad_and_roll], [pad_boxsum]
    and [boxsum], together with the part of Python and numpy they rest
    on, and the properties of these functions.

    Two views of an array are used, as the code uses them:
    - [boxsum] and [pad_boxsum] only read their argument and return fresh
      arrays, so they are modelled on array values ([ndarray]: a shape and
      the cell found at each index);
    - [rolling_window] returns a strided alias of its argument, so it is
      modelled on array headers ([strided]: base address, shape, strides,
      writeable flag) over a store of cells.

    Shapes, aliasing and raised exceptions do not depend on what the
    cells hold, and the properties of cell values below are those of
    exact arithmetic, so cells are unbounded integers throughout.  The
    rounding, NaN and infinities of numpy's float64 cells are kept
    apart, in the module [Float64], which holds the box-sum functions
    on binary64 cells and shows where exact arithmetic is needed. *)

From Stdlib Require Import PrimFloat.
From Stdlib Require Import ZArith Lia Bool FunctionalExtensionality.
From stdpp Require Import base tactics option list list_numbers gmap.

Local Open Scope Z_scope.

(** * Part I: the program *)

(** ** Python results: a value or a raised exception *)

Inductive exn : Set :=
  | AssertionError
  | ValueError
  | IndexError
  | AxisError.

Inductive result (A : Type) : Type :=
  | Ok (a : A)
  | Raise (e : exn).
Arguments Ok {A} a.
Arguments Raise {A} e.

#[global] Instance result_ret : MRet result := fun _ a => Ok a.
#[global] Instance result_bind : MBind result := fun _ _ f m =>
  match m with
  | Ok a => f a
  | Raise e => Raise e
  end.

#[global] Instance result_fmap : FMap result := fun _ _ f m =>
  match m with
  | Ok a => Ok (f a)
  | Raise e => Raise e
  end.

Definition py_assert (b : bool) : result unit :=
  if b then Ok tt else Raise AssertionError.

(** ** Python sequences: indexing and slicing with negative positions *)

(** [l[x]]: a negative [x] counts from the end. *)
Definition py_index {A} (l : list A) (x : Z) : result A :=
  let len := Z.of_nat (length l) in
  let x' := if x <? 0 then x + len else x in
  if (0 <=? x') && (x' <? len)
  then match l !! Z.to_nat x' with Some a => Ok a | None => Raise IndexError end
  else Raise IndexError.

(** A slice bound is clamped into [0, len] after a negative one was
    shifted by [len]. *)
Definition slice_bound (len x : Z) : Z :=
  if x <? 0 then Z.max 0 (x + len) else Z.min x len.

(** [start:stop] on a sequence of length [len], as (first, past-the-end). *)
Definition pyslice : Type := option Z * option Z.

Definition slice_start (len : Z) (s : pyslice) : Z :=
  match fst s with None => 0 | Some x => slice_bound len x end.
Definition slice_stop (len : Z) (s : pyslice) : Z :=
  match snd s with None => len | Some x => slice_bound len x end.
Definition slice_len (len : Z) (s : pyslice) : Z :=
  Z.max 0 (slice_stop len s - slice_start len s).

(** [l[start:stop]] on a tuple. *)
Definition py_slice {A} (l : list A) (s : pyslice) : list A :=
  let len := Z.of_nat (length l) in
  take (Z.to_nat (slice_len len s)) (drop (Z.to_nat (slice_start len s)) l).

(** [[x] * n]: a negative count gives the empty list. *)
Definition py_repeat {A} (x : A) (n : Z) : list A := replicate (Z.to_nat n) x.

(** ** Array values *)

Record ndarray : Type := NdArray {
  shape : list Z;
  item : list Z -> Z
}.

Definition ndim (a : ndarray) : nat := length (shape a).

Definition in_bounds (sh idx : list Z) : Prop :=
  Forall2 (fun d t => 0 <= t < d) sh idx.

(** Two arrays are the same array when they have the same shape and the
    same cell at every index of that shape. *)
Definition same_array (a b : ndarray) : Prop :=
  shape a = shape b /\
  forall idx, in_bounds (shape a) idx -> item a idx = item b idx.

(** Coordinate [k] of an index. *)
Definition coord (idx : list Z) (k : nat) : Z := default 0 (idx !! k).

(** A 2-D array from its rows, for examples. *)
Definition of_rows (nrows ncols : Z) (rows : list (list Z)) : ndarray :=
  {| shape := [nrows; ncols];
     item idx := default 0 (default [] (rows !! Z.to_nat (coord idx 0))
                              !! Z.to_nat (coord idx 1)) |}.

(** The cells of a 2-D array value as rows, for examples. *)
Definition to_rows (a : ndarray) : list (list Z) :=
  (fun r => (fun c => item a [r; c]) <$> seqZ 0 (coord (shape a) 1))
    <$> seqZ 0 (coord (shape a) 0).

Definition np_full (sh : list Z) (v : Z) : ndarray :=
  {| shape := sh; item _ := v |}.

(** [data[b]]: the sub-array at position [b] of the first axis. *)
Definition subarray (a : ndarray) (b : Z) : ndarray :=
  {| shape := tail (shape a); item idx := item a (b :: idx) |}.

(** ** numpy primitives on array values *)

(** A negative axis counts from the last one. *)
Definition normalize_axis (n : nat) (axis : Z) : result nat :=
  let n' := Z.of_nat n in
  if (- n' <=? axis) && (axis <? n')
  then Ok (Z.to_nat (if axis <? 0 then axis + n' else axis))
  else Raise AxisError.

(** [sum_upto n f] is f 0 + ... + f (n - 1). *)
Fixpoint sum_upto (n : nat) (f : Z -> Z) : Z :=
  match n with
  | O => 0
  | S k => sum_upto k f + f (Z.of_nat k)
  end.

(** The lane of [a] through [idx] along axis [k]. *)
Definition lane (a : ndarray) (k : nat) (idx : list Z) : Z -> Z :=
  fun s => item a (<[k := s]> idx).

(** [a.cumsum(axis)]: inclusive running totals along one axis. *)
Definition np_cumsum (axis : Z) (a : ndarray) : result ndarray :=
  k ← normalize_axis (ndim a) axis;
  Ok {| shape := shape a;
        item idx := sum_upto (Z.to_nat (coord idx k + 1)) (lane a k idx) |}.

(** Basic slicing of one axis with [start:stop]. *)
Definition slice_axis (k : nat) (s : pyslice) (a : ndarray) : ndarray :=
  let len := coord (shape a) k in
  {| shape := <[k := slice_len len s]> (shape a);
     item idx := item a (<[k := coord idx k + slice_start len s]> idx) |}.

(** [a[..., s1, s2]]: slices on the last two axes, every leading axis
    kept whole. *)
Definition getitem_last2 (a : ndarray) (s1 s2 : pyslice) : result ndarray :=
  if decide (2 <= ndim a)%nat
  then Ok (slice_axis (ndim a - 1) s2 (slice_axis (ndim a - 2) s1 a))
  else Raise IndexError.

(** Broadcasting of two axis lengths, then of two shapes aligned on
    their last axes. *)
Definition broadcast_dim (d1 d2 : Z) : result Z :=
  if d1 =? d2 then Ok d1
  else if d1 =? 1 then Ok d2
  else if d2 =? 1 then Ok d1
  else Raise ValueError.

Fixpoint broadcast_rev (s1 s2 : list Z) : result (list Z) :=
  match s1, s2 with
  | [], _ => Ok s2
  | _, [] => Ok s1
  | d1 :: r1, d2 :: r2 =>
      d ← broadcast_dim d1 d2;
      r ← broadcast_rev r1 r2;
      Ok (d :: r)
  end.

Definition broadcast_shapes (s1 s2 : list Z) : result (list Z) :=
  r ← broadcast_rev (reverse s1) (reverse s2);
  Ok (reverse r).

(** The index of an operand of shape [sh] that an index of the
    broadcast result reads. *)
Definition bcast_index (sh idx : list Z) : list Z :=
  zip_with (fun d t => if d =? 1 then 0 else t) sh
           (drop (length idx - length sh) idx).

Definition np_binop (f : Z -> Z -> Z) (a b : ndarray) : result ndarray :=
  sh ← broadcast_shapes (shape a) (shape b);
  Ok {| shape := sh;
        item idx := f (item a (bcast_index (shape a) idx))
                      (item b (bcast_index (shape b) idx)) |}.

Definition np_add : ndarray -> ndarray -> result ndarray := np_binop Z.add.
Definition np_sub : ndarray -> ndarray -> result ndarray := np_binop Z.sub.

(** [numpy.stack(arrays)] along a new first axis: the arrays must be
    at least one and of one shape. *)
Definition np_stack (arrays : list ndarray) : result ndarray :=
  match arrays with
  | [] => Raise ValueError
  | a :: rest =>
      if forallb (fun x => bool_decide (shape x = shape a)) rest
      then Ok {| shape := Z.of_nat (length arrays) :: shape a;
                 item idx :=
                   match idx with
                   | [] => 0
                   | b :: idx' =>
                       match arrays !! Z.to_nat b with
                       | Some x => item x idx'
                       | None => 0
                       end
                   end |}
      else Raise ValueError
  end.

(** ** numpy.pad

    A pad mode fills the border of each lane from the lane itself:
    [fill before after n f t] is the cell at position [t] of the padded
    lane, for [t] outside [before, before + n), where [f] is the lane
    of length [n] before padding.  Axes are padded one after the other,
    each on the array padded so far.  Modes other than a constant
    refuse to extend an empty axis. *)

Record pad_mode : Type := PadMode {
  fill : Z -> Z -> Z -> (Z -> Z) -> Z -> Z;
  extends_empty : bool
}.

Definition mode_constant (v : Z) : pad_mode :=
  {| fill _ _ _ _ _ := v; extends_empty := true |}.

Definition mode_edge : pad_mode :=
  {| fill before _ n f t := f (Z.max 0 (Z.min (n - 1) (t - before)));
     extends_empty := false |}.

Definition mode_reflect : pad_mode :=
  {| fill before _ n f t :=
       if n =? 1 then f 0
       else let p := 2 * (n - 1) in
            let u := (t - before) mod p in
            f (if u <? n then u else p - u);
     extends_empty := false |}.

Definition pad_lane (mode : pad_mode) (before after n : Z) (f : Z -> Z) (t : Z) : Z :=
  if (before <=? t) && (t <? before + n) then f (t - before)
  else fill mode before after n f t.

Definition pad_axis (mode : pad_mode) (a : ndarray) (kw : nat * (Z * Z)) : ndarray :=
  let '(k, (before, after)) := kw in
  let n := coord (shape a) k in
  {| shape := <[k := before + n + after]> (shape a);
     item idx := pad_lane mode before after n (lane a k idx) (coord idx k) |}.

(** One (before, after) pair per axis; a single pair stands for all. *)
Definition as_pairs (n : nat) (w : list (Z * Z)) : result (list (Z * Z)) :=
  if decide (length w = n) then Ok w
  else match w with
       | [p] => Ok (replicate n p)
       | _ => Raise ValueError
       end.

Definition np_pad (a : ndarray) (pad_width : list (Z * Z)) (mode : pad_mode)
  : result ndarray :=
  w ← as_pairs (ndim a) pad_width;
  if existsb (fun p => (fst p <? 0) || (snd p <? 0)) w then Raise ValueError
  else if negb (extends_empty mode) &&
          existsb (fun dp => (fst dp =? 0) &&
                             negb ((fst (snd dp) =? 0) && (snd (snd dp) =? 0)))
                  (zip (shape a) w)
  then Raise ValueError
  else Ok (foldl (pad_axis mode) a (zip (seq 0 (ndim a)) w)).

(** ** The box-sum functions *)

(** The [boxsize] argument: an int or a sequence of ints. *)
Inductive int_or_ints : Type :=
  | Int (i : Z)
  | Ints (l : list Z).

Definition atleast_1d (b : int_or_ints) : list Z :=
  match b with
  | Int i => [i]
  | Ints l => l
  end.

Definition pad_boxsum (data : ndarray) (boxsize : int_or_ints) (pad_options : pad_mode)
  : result ndarray :=
  let boxsize := atleast_1d boxsize in
  b0 ← py_index boxsize 0;
  b1 ← py_index boxsize (-1);
  let ih := b0 / 2 in
  let jh := b1 / 2 in
  let padding := py_repeat (0, 0) (Z.of_nat (ndim data) - 2)
                 ++ [(ih + 1, ih); (jh + 1, jh)] in
  np_pad data padding pad_options.

(** [pad_options] is [None] for an empty keyword dictionary. *)
Definition boxsum (data : ndarray) (boxsize : int_or_ints) (cumsum : bool)
    (pad_options : option pad_mode) : result ndarray :=
  let boxsize := atleast_1d boxsize in
  data ← match pad_options with
         | Some mode => pad_boxsum data (Ints boxsize) mode
         | None => Ok data
         end;
  data ← (if cumsum then d ← np_cumsum (-2) data; np_cumsum (-1) d
          else Ok data);
  i ← py_index boxsize 0;
  j ← py_index boxsize (-1);
  rows ← py_index (shape data) (-2);
  cols ← py_index (shape data) (-1);
  let m := rows - i in
  let n := cols - j in
  t1 ← getitem_last2 data (Some i, Some (i + m)) (Some j, Some (j + n));
  t2 ← getitem_last2 data (None, Some m) (Some j, Some (j + n));
  t3 ← getitem_last2 data (None, Some m) (None, Some n);
  t4 ← getitem_last2 data (Some i, Some (i + m)) (None, Some n);
  d1 ← np_sub t1 t2;
  d2 ← np_add d1 t3;
  np_sub d2 t4.

(** ** The box-sum functions on float64 cells

    The cells of a numpy array are by default IEEE 754 binary64
    numbers: every sum and difference rounds to the nearest such
    number, and NaN and the infinities propagate.  This module holds
    [pad_boxsum] and [boxsum] once more, on arrays of binary64 cells.
    Axes, slices, broadcasting and pad widths are those of the
    functions above; only the cells and the arithmetic on them
    differ. *)

Module Float64.

Record ndarray : Type := NdArray {
  shape : list Z;
  item : list Z -> float
}.

Definition ndim (a : ndarray) : nat := length (shape a).

Definition of_rows (nrows ncols : Z) (rows : list (list float)) : ndarray :=
  {| shape := [nrows; ncols];
     item idx := default PrimFloat.zero
                   (default [] (rows !! Z.to_nat (coord idx 0))
                      !! Z.to_nat (coord idx 1)) |}.

Definition to_rows (a : ndarray) : list (list float) :=
  (fun r => (fun c => item a [r; c]) <$> seqZ 0 (coord (shape a) 1))
    <$> seqZ 0 (coord (shape a) 0).

(** The running total of the first [n] cells of a lane, accumulated
    from the first cell on, one rounded addition per further cell. *)
Fixpoint running_total (n : nat) (f : Z -> float) : float :=
  match n with
  | O => PrimFloat.zero
  | S k => match k with
           | O => f 0
           | S _ => PrimFloat.add (running_total k f) (f (Z.of_nat k))
           end
  end.

Definition lane (a : ndarray) (k : nat) (idx : list Z) : Z -> float :=
  fun s => item a (<[k := s]> idx).

Definition np_cumsum (axis : Z) (a : ndarray) : result ndarray :=
  k ← normalize_axis (ndim a) axis;
  Ok {| shape := shape a;
        item idx := running_total (Z.to_nat (coord idx k + 1)) (lane a k idx) |}.

Definition slice_axis (k : nat) (s : pyslice) (a : ndarray) : ndarray :=
  let len := coord (shape a) k in
  {| shape := <[k := slice_len len s]> (shape a);
     item idx := item a (<[k := coord idx k + slice_start len s]> idx) |}.

Definition getitem_last2 (a : ndarray) (s1 s2 : pyslice) : result ndarray :=
  if decide (2 <= ndim a)%nat
  then Ok (slice_axis (ndim a - 1) s2 (slice_axis (ndim a - 2) s1 a))
  else Raise IndexError.

Definition np_binop (f : float -> float -> float) (a b : ndarray) : result ndarray :=
  sh ← broadcast_shapes (shape a) (shape b);
  Ok {| shape := sh;
        item idx := f (item a (bcast_index (shape a) idx))
                      (item b (bcast_index (shape b) idx)) |}.

Definition np_add : ndarray -> ndarray -> result ndarray := np_binop PrimFloat.add.
Definition np_sub : ndarray -> ndarray -> result ndarray := np_binop PrimFloat.sub.

Record pad_mode : Type := PadMode {
  fill : Z -> Z -> Z -> (Z -> float) -> Z -> float;
  extends_empty : bool
}.

Definition mode_constant (v : float) : pad_mode :=
  {| fill _ _ _ _ _ := v; extends_empty := true |}.

Definition mode_edge : pad_mode :=
  {| fill before _ n f t := f (Z.max 0 (Z.min (n - 1) (t - before)));
     extends_empty := false |}.

Definition mode_reflect : pad_mode :=
  {| fill before _ n f t :=
       if n =? 1 then f 0
       else let p := 2 * (n - 1) in
            let u := (t - before) mod p in
            f (if u <? n then u else p - u);
     extends_empty := false |}.

Definition pad_lane (mode : pad_mode) (before after n : Z) (f : Z -> float) (t : Z)
  : float :=
  if (before <=? t) && (t <? before + n) then f (t - before)
  else fill mode before after n f t.

Definition pad_axis (mode : pad_mode) (a : ndarray) (kw : nat * (Z * Z)) : ndarray :=
  let '(k, (before, after)) := kw in
  let n := coord (shape a) k in
  {| shape := <[k := before + n + after]> (shape a);
     item idx := pad_lane mode before after n (lane a k idx) (coord idx k) |}.

Definition np_pad (a : ndarray) (pad_width : list (Z * Z)) (mode : pad_mode)
  : result ndarray :=
  w ← as_pairs (ndim a) pad_width;
  if existsb (fun p => (fst p <? 0) || (snd p <? 0)) w then Raise ValueError
  else if negb (extends_empty mode) &&
          existsb (fun dp => (fst dp =? 0) &&
                             negb ((fst (snd dp) =? 0) && (snd (snd dp) =? 0)))
                  (zip (shape a) w)
  then Raise ValueError
  else Ok (foldl (pad_axis mode) a (zip (seq 0 (ndim a)) w)).

Definition pad_boxsum (data : ndarray) (boxsize : int_or_ints) (pad_options : pad_mode)
  : result ndarray :=
  let boxsize := atleast_1d boxsize in
  b0 ← py_index boxsize 0;
  b1 ← py_index boxsize (-1);
  let ih := b0 / 2 in
  let jh := b1 / 2 in
  let padding := py_repeat (0, 0) (Z.of_nat (ndim data) - 2)
                 ++ [(ih + 1, ih); (jh + 1, jh)] in
  np_pad data padding pad_options.

Definition boxsum (data : ndarray) (boxsize : int_or_ints) (cumsum : bool)
    (pad_options : option pad_mode) : result ndarray :=
  let boxsize := atleast_1d boxsize in
  data ← match pad_options with
         | Some mode => pad_boxsum data (Ints boxsize) mode
         | None => Ok data
         end;
  data ← (if cumsum then d ← np_cumsum (-2) data; np_cumsum (-1) d
          else Ok data);
  i ← py_index boxsize 0;
  j ← py_index boxsize (-1);
  rows ← py_index (shape data) (-2);
  cols ← py_index (shape data) (-1);
  let m := rows - i in
  let n := cols - j in
  t1 ← getitem_last2 data (Some i, Some (i + m)) (Some j, Some (j + n));
  t2 ← getitem_last2 data (None, Some m) (Some j, Some (j + n));
  t3 ← getitem_last2 data (None, Some m) (None, Some n);
  t4 ← getitem_last2 data (Some i, Some (i + m)) (None, Some n);
  d1 ← np_sub t1 t2;
  d2 ← np_add d1 t3;
  np_sub d2 t4.

End Float64.

(** ** Strided arrays over a store *)

(** The cells of every buffer, by byte address, and the first address
    not yet handed out. *)
Record store : Type := Store {
  cells : gmap Z Z;
  brk : Z
}.

(** An array header: where element 0 lives, the [shape] attribute
    ([dims]), the byte step of each axis and the writeable flag. *)
Record strided : Type := Strided {
  base : Z;
  dims : list Z;
  strides : list Z;
  writeable : bool
}.

Definition dot (idx str : list Z) : Z := foldr Z.add 0 (zip_with Z.mul idx str).

Definition address (h : strided) (idx : list Z) : Z := base h + dot idx (strides h).

(** A position on an axis of length [d]; a negative one counts from
    the end. *)
Definition norm_position (d t : Z) : result Z :=
  if (0 <=? t) && (t <? d) then Ok t
  else if (- d <=? t) && (t <? 0) then Ok (t + d)
  else Raise IndexError.

Fixpoint norm_positions (sh idx : list Z) : result (list Z) :=
  match sh, idx with
  | [], [] => Ok []
  | d :: sh', t :: idx' =>
      t' ← norm_position d t;
      r ← norm_positions sh' idx';
      Ok (t' :: r)
  | _, _ => Raise IndexError
  end.

(** [h[idx]] with one position per axis: a single cell. *)
Definition getitem (st : store) (h : strided) (idx : list Z) : result Z :=
  i ← norm_positions (dims h) idx;
  Ok (default 0 (cells st !! address h i)).

(** [h[idx] = v].  The store comes back unchanged when the assignment
    raises. *)
Definition setitem (st : store) (h : strided) (idx : list Z) (v : Z)
  : store * result unit :=
  if writeable h then
    match norm_positions (dims h) idx with
    | Ok i => ({| cells := <[address h i := v]> (cells st); brk := brk st |}, Ok tt)
    | Raise e => (st, Raise e)
    end
  else (st, Raise ValueError).

(** [numpy.lib.stride_tricks.as_strided]: a new header on the same
    cells.  A read-only array cannot be made writeable this way. *)
Definition as_strided (x : strided) (shape strides : list Z) (writeable' : bool)
  : result strided :=
  if decide (length shape = length strides) then
    if forallb (fun d => 0 <=? d) shape
    then Ok {| base := base x; dims := shape; strides := strides;
               writeable := writeable x && writeable' |}
    else Raise ValueError
  else Raise ValueError.

(** ** The window functions *)

Definition rolling_window (input_array : strided) (shape : list Z) (writeable : bool)
  : result strided :=
  let num_window_dims := Z.of_nat (length shape) in
  let num_arr_dims := Z.of_nat (length (dims input_array)) in
  _ ← py_assert (num_window_dims <=? num_arr_dims);
  let adjshp :=
    py_slice (dims input_array) (None, Some (- num_window_dims))
    ++ zip_with (fun arr_dims win_dims => arr_dims - win_dims + 1)
         (py_slice (dims input_array) (Some (- num_window_dims), None)) shape
    ++ shape in
  _ ← py_assert (forallb (fun arr_dims => 0 <? arr_dims) adjshp);
  let strides := strides input_array
                 ++ py_slice (strides input_array) (Some (- num_window_dims), None) in
  as_strided input_array adjshp strides writeable.

(** numpy.pad on a strided array reads it, pads the value and puts the
    result in a fresh contiguous array. *)

Definition load (st : store) (h : strided) : ndarray :=
  {| shape := dims h; item idx := default 0 (cells st !! address h idx) |}.

Definition indices (sh : list Z) : list (list Z) :=
  foldr (fun d acc => t ← seqZ 0 d; (fun idx => t :: idx) <$> acc) [[]] sh.

Definition c_strides (itemsize : Z) (sh : list Z) : list Z :=
  snd (foldr (fun d '(s, acc) => (s * d, s :: acc)) (itemsize, []) sh).

Definition itemsize : Z := 8.

Definition alloc (st : store) (a : ndarray) : store * strided :=
  let h := {| base := brk st; dims := shape a;
              strides := c_strides itemsize (shape a); writeable := true |} in
  ({| cells := foldr (fun idx m => <[address h idx := item a idx]> m)
                     (cells st) (indices (shape a));
      brk := brk st + itemsize * foldr Z.mul 1 (shape a) |}, h).

Definition np_pad_strided (st : store) (h : strided) (pad_width : list (Z * Z))
    (mode : pad_mode) : store * result strided :=
  match np_pad (load st h) pad_width mode with
  | Ok a => let '(st', h') := alloc st a in (st', Ok h')
  | Raise e => (st, Raise e)
  end.

(** [kwargs] holds the optional [writeable] entry and what is left for
    [numpy.pad], whose mode is a constant 0 when nothing is given. *)
Definition pad_and_roll (st : store) (input_array : strided) (shape : list Z)
    (kw_writeable : option bool) (kwargs : option pad_mode)
  : store * result strided :=
  let writeable := default false kw_writeable in
  let pad_extent :=
    py_repeat (0, 0) (Z.of_nat (length (dims input_array)) - Z.of_nat (length shape))
    ++ ((fun d => (d / 2, d / 2)) <$> shape) in
  match np_pad_strided st input_array pad_extent (default (mode_constant 0) kwargs) with
  | (st', Ok input_array) => (st', rolling_window input_array shape writeable)
  | (st', Raise e) => (st', Raise e)
  end.

(** ** Notions used to state the properties *)

(** What [boxsum] works on: the grid itself, or the grid after
    [pad_boxsum] when pad options are given. *)
Definition boxsum_input (data : ndarray) (box : int_or_ints)
    (pad_options : option pad_mode) : result ndarray :=
  match pad_options with
  | Some mode => pad_boxsum data box mode
  | None => Ok data
  end.

(** What [data.cumsum(-2).cumsum(-1)] holds at row [r], column [c] of
    batch position [b]. *)
Definition table_cell (data : ndarray) (b : list Z) (r c : Z) : Z :=
  sum_upto (Z.to_nat (c + 1)) (fun t =>
    sum_upto (Z.to_nat (r + 1)) (fun s => item data (b ++ [s; t]))).

(** The sum of the [i] by [j] block of cells of [data] whose first cell
    is at row [r0], column [c0] of batch position [b], one cell at a
    time. *)
Definition window_sum (data : ndarray) (b : list Z) (r0 c0 i j : Z) : Z :=
  sum_upto (Z.to_nat i) (fun a =>
    sum_upto (Z.to_nat j) (fun d => item data (b ++ [r0 + a; c0 + d]))).

(** Box sums by direct summation: output position (r, c) holds the
    total of the window of [data] on rows r+1 .. r+i and columns
    c+1 .. c+j, the block that the table difference
    T[r+i, c+j] - T[r, c+j] + T[r, c] - T[r+i, c] stands for. *)
Definition boxsum_brute (data : ndarray) (i j : Z) : ndarray :=
  let k := (ndim data - 2)%nat in
  {| shape := take k (shape data)
              ++ [coord (shape data) k - i; coord (shape data) (k + 1) - j];
     item idx := window_sum data (take k idx)
                   (coord idx k + 1) (coord idx (k + 1) + 1) i j |}.

(** What [boxsum] without padding puts at output position (r, c) of
    batch position [b]: a window sum of the grid when it accumulates,
    the four-corner difference of the given table when it does not. *)
Definition box_value (cs : bool) (T : ndarray) (b : list Z) (r c i j : Z) : Z :=
  if cs then window_sum T b (r + 1) (c + 1) i j
  else item T (b ++ [r + i; c + j]) - item T (b ++ [r; c + j])
       + item T (b ++ [r; c]) - item T (b ++ [r + i; c]).

Definition window_dims (sp W : list Z) : list Z :=
  zip_with (fun g w => g - w + 1) sp W.

(** The cell of the source array that position [idx] of a window view
    with [k] window axes stands for: batch positions kept, each window
    offset added to its spatial position. *)
Definition source_index (k : nat) (idx : list Z) : list Z :=
  let n := (length idx - 2 * k)%nat in
  take n idx ++ zip_with Z.add (take k (drop n idx)) (drop (n + k) idx).

(** ** Notions used to state the further properties *)

(** The shape after padding with one width pair per axis, and where a
    position of the array lies in the padded array. *)
Definition padded_dims (sh : list Z) (w : list (Z * Z)) : list Z :=
  zip_with (fun d p => fst p + d + snd p) sh w.

Definition shifted (idx : list Z) (w : list (Z * Z)) : list Z :=
  zip_with (fun t p => fst p + t) idx w.

(** The mode can extend every axis it is asked to: it is a constant,
    or no empty axis gets a width other than (0, 0). *)
Definition can_extend (mode : pad_mode) (sh : list Z) (w : list (Z * Z)) : Prop :=
  extends_empty mode = true \/
  Forall2 (fun d p => d = 0 -> fst p = 0 /\ snd p = 0) sh w.

(** The grid read outside its bounds: a constant there, or the nearest
    cell of the grid. *)
Definition extend_constant (v : Z) (G : ndarray) (R C r c : Z) : Z :=
  if (0 <=? r) && (r <? R) && ((0 <=? c) && (c <? C)) then item G [r; c] else v.

Definition clamp (n t : Z) : Z := Z.max 0 (Z.min (n - 1) t).

Definition extend_edge (G : ndarray) (R C r c : Z) : Z :=
  item G [clamp R r; clamp C c].

(** The total of the [i] by [j] window of [ext] that starts at
    ([r0], [c0]). *)
Definition window_total (ext : Z -> Z -> Z) (r0 c0 i j : Z) : Z :=
  sum_upto (Z.to_nat i) (fun a =>
    sum_upto (Z.to_nat j) (fun d => ext (r0 + a) (c0 + d))).

(** The number of cells of an array of shape [sh]. *)
Definition prod (sh : list Z) : Z := foldr Z.mul 1 sh.

(** What [pad_and_roll] hands to [numpy.pad] for an array with [n]
    batch axes, the window offsets of the centre of a window, and the
    spatial axes after padding and after the window view. *)
Definition window_pad (n : nat) (W : list Z) : list (Z * Z) :=
  replicate n (0, 0) ++ ((fun d => (d / 2, d / 2)) <$> W).

Definition centre (W : list Z) : list Z := (fun w => w / 2) <$> W.

Definition grown (sp W : list Z) : list Z :=
  zip_with (fun g w => g + (1 - w mod 2)) sp W.

Definition padded_axes (sp W : list Z) : list Z :=
  zip_with (fun g w => w / 2 + g + w / 2) sp W.

(** [V[b, r, c].sum()] for a view whose last two axes have lengths
    [i] and [j]. *)
Definition view_total (V : ndarray) (b : list Z) (r c i j : Z) : Z :=
  sum_upto (Z.to_nat i) (fun a =>
    sum_upto (Z.to_nat j) (fun d => item V (b ++ [r; c; a; d]))).

(** A pad mode whose filler at a given distance from the array does
    not depend on how far the padding goes on. *)
Definition shift_invariant (mode : pad_mode) : Prop :=
  forall before after n f t,
    fill mode (before + 1) after n f (t + 1) = fill mode before after n f t.

(** ** Arrays for the examples *)

Definition ones45 : ndarray := np_full [4; 5] 1.

Definition ones35 : ndarray := np_full [3; 5] 1.

Definition grid23 : ndarray := of_rows 2 3 [[1; 2; 3]; [4; 5; 6]].

Definition stack223 : ndarray :=
  {| shape := [2; 2; 3];
     item idx := coord idx 0 * 100 + coord idx 1 * 10 + coord idx 2 |}.

Definition header (sh : list Z) : strided :=
  {| base := 0; dims := sh; strides := c_strides itemsize sh; writeable := true |}.

Definition stack245 : ndarray :=
  {| shape := [2; 4; 5];
     item idx := coord idx 0 * 100 + coord idx 1 * 10 + coord idx 2 |}.

(** An array made in an empty store. *)
Definition fresh (a : ndarray) : store * strided := alloc (Store ∅ 0) a.



(** * Part II: properties *)

(** ** Proof tools *)

(** Decide the integer comparisons in the goal by case analysis. *)
Ltac zbool :=
  repeat match goal with
  | |- context [?a <=? ?b] => destruct (Z.leb_spec a b); try lia
  | |- context [?a <? ?b] => destruct (Z.ltb_spec a b); try lia
  | |- context [?a =? ?b] => destruct (Z.eqb_spec a b); try lia
  end; simpl.

(** ** Sums *)

Lemma sum_upto_ext n f g :
  (forall k, 0 <= k < Z.of_nat n -> f k = g k) -> sum_upto n f = sum_upto n g.
Proof.
  induction n as [|n IH]; intros H; simpl; [done|].
  rewrite IH by (intros; apply H; lia). f_equal. apply H. lia.
Qed.

Lemma sum_upto_add n f g :
  sum_upto n (fun t => f t + g t) = sum_upto n f + sum_upto n g.
Proof. induction n as [|n IH]; simpl; [done|]. rewrite IH. lia. Qed.

Lemma sum_upto_sub n f g :
  sum_upto n (fun t => f t - g t) = sum_upto n f - sum_upto n g.
Proof. induction n as [|n IH]; simpl; [done|]. rewrite IH. lia. Qed.

Lemma sum_upto_zero n : sum_upto n (fun _ => 0) = 0.
Proof. induction n as [|n IH]; simpl; lia. Qed.

Lemma sum_upto_app n m f :
  sum_upto (n + m) f = sum_upto n f + sum_upto m (fun t => f (Z.of_nat n + t)).
Proof.
  induction m as [|m IH]; simpl.
  - rewrite Nat.add_0_r. lia.
  - rewrite Nat.add_succ_r. simpl. rewrite IH.
    replace (Z.of_nat (n + m)) with (Z.of_nat n + Z.of_nat m) by lia. lia.
Qed.

Lemma sum_upto_swap n m (g : Z -> Z -> Z) :
  sum_upto n (fun a => sum_upto m (fun b => g a b)) =
  sum_upto m (fun b => sum_upto n (fun a => g a b)).
Proof.
  induction n as [|n IH]; simpl.
  - by rewrite sum_upto_zero.
  - rewrite IH, <- sum_upto_add. done.
Qed.

(** The difference of two running totals is the sum of the cells between. *)
Lemma sum_upto_diff (lo len : Z) f :
  0 <= lo -> 0 <= len ->
  sum_upto (Z.to_nat (lo + len)) f - sum_upto (Z.to_nat lo) f =
  sum_upto (Z.to_nat len) (fun t => f (lo + t)).
Proof.
  intros Hlo Hlen. rewrite Z2Nat.inj_add, sum_upto_app by lia.
  rewrite Z2Nat.id by lia. lia.
Qed.

(** ** Indices of a batched matrix: [b ++ [r; c]] under shape [bs ++ [R; C]] *)

Lemma coord_app_r (b l : list Z) n k :
  length b = n -> coord (b ++ l) (n + k) = coord l k.
Proof.
  intros <-. unfold coord.
  by rewrite lookup_app_r, Nat.add_comm, Nat.add_sub by lia.
Qed.

Lemma coord_app_len (b l : list Z) n :
  length b = n -> coord (b ++ l) n = coord l 0.
Proof. intros <-. rewrite <- (Nat.add_0_r (length b)) at 1. by apply coord_app_r. Qed.

Lemma insert_app_at (b l : list Z) n k (x : Z) :
  length b = n -> <[(n + k)%nat := x]> (b ++ l) = b ++ <[k := x]> l.
Proof. intros <-. apply insert_app_r. Qed.

Lemma insert_app_len (b l : list Z) n (x : Z) :
  length b = n -> <[n := x]> (b ++ l) = b ++ <[0%nat := x]> l.
Proof. intros <-. rewrite <- (Nat.add_0_r (length b)) at 1. apply insert_app_r. Qed.

Lemma in_bounds_length sh idx : in_bounds sh idx -> length idx = length sh.
Proof. intros H. symmetry. by eapply Forall2_length. Qed.

Lemma in_bounds_app bs b s t :
  in_bounds bs b -> in_bounds s t -> in_bounds (bs ++ s) (b ++ t).
Proof. apply Forall2_app. Qed.

Lemma in_bounds_batched bs m n idx :
  in_bounds (bs ++ [m; n]) idx ->
  exists b r c, idx = b ++ [r; c] /\ in_bounds bs b /\ 0 <= r < m /\ 0 <= c < n.
Proof.
  intros H. apply Forall2_app_inv_l in H as (b & t & Hb & Ht & ->).
  inversion Ht as [|? r ? t' Hr Ht']; subst.
  inversion Ht' as [|? c ? t'' Hc Ht'']; subst.
  inversion Ht''; subst. by exists b, r, c.
Qed.

Lemma in_bounds_pair m n r c : 0 <= r < m -> 0 <= c < n -> in_bounds [m; n] [r; c].
Proof. intros. repeat constructor; lia. Qed.

Lemma py_index_rows (bs : list Z) R C : py_index (bs ++ [R; C]) (-2) = Ok R.
Proof.
  unfold py_index. rewrite length_app. simpl length.
  replace (-2 <? 0) with true by done.
  replace (-2 + Z.of_nat (length bs + 2)) with (Z.of_nat (length bs)) by lia.
  rewrite Nat2Z.id. zbool.
  rewrite lookup_app_r, Nat.sub_diag by lia. done.
Qed.

Lemma py_index_cols (bs : list Z) R C : py_index (bs ++ [R; C]) (-1) = Ok C.
Proof.
  unfold py_index. rewrite length_app. simpl length.
  replace (-1 <? 0) with true by done.
  replace (-1 + Z.of_nat (length bs + 2)) with (Z.of_nat (S (length bs))) by lia.
  rewrite Nat2Z.id. zbool.
  rewrite lookup_app_r by lia.
  replace (S (length bs) - length bs)%nat with 1%nat by lia. done.
Qed.

Lemma normalize_axis_rows n : normalize_axis (n + 2) (-2) = Ok n.
Proof.
  unfold normalize_axis. zbool. f_equal. lia.
Qed.

Lemma normalize_axis_cols n : normalize_axis (n + 2) (-1) = Ok (S n).
Proof.
  unfold normalize_axis. zbool. f_equal. lia.
Qed.

(** ** The summed-area table *)

Lemma np_cumsum_rows data bs R C :
  shape data = bs ++ [R; C] ->
  exists A, np_cumsum (-2) data = Ok A /\ shape A = bs ++ [R; C] /\
    forall b r c, length b = length bs ->
      item A (b ++ [r; c]) =
      sum_upto (Z.to_nat (r + 1)) (fun s => item data (b ++ [s; c])).
Proof.
  intros Hsh. unfold np_cumsum, ndim. rewrite Hsh, length_app. simpl length.
  rewrite normalize_axis_rows. simpl.
  eexists. split; [reflexivity|]. split; [done|].
  intros b r c Hb. simpl. unfold lane. rewrite (coord_app_len _ _ _ Hb). simpl.
  apply sum_upto_ext. intros s _. by rewrite (insert_app_len _ _ _ _ Hb).
Qed.

Lemma np_cumsum_cols data bs R C :
  shape data = bs ++ [R; C] ->
  exists A, np_cumsum (-1) data = Ok A /\ shape A = bs ++ [R; C] /\
    forall b r c, length b = length bs ->
      item A (b ++ [r; c]) =
      sum_upto (Z.to_nat (c + 1)) (fun t => item data (b ++ [r; t])).
Proof.
  intros Hsh. unfold np_cumsum, ndim. rewrite Hsh, length_app. simpl length.
  rewrite normalize_axis_cols. simpl.
  eexists. split; [reflexivity|]. split; [done|].
  intros b r c Hb. simpl. unfold lane.
  replace (S (length bs)) with (length bs + 1)%nat by lia.
  rewrite (coord_app_r _ _ _ _ Hb). simpl.
  apply sum_upto_ext. intros t _. by rewrite (insert_app_at _ _ _ _ _ Hb).
Qed.

Lemma cumsum_rows_cols data bs R C :
  shape data = bs ++ [R; C] ->
  exists T, (d ← np_cumsum (-2) data; np_cumsum (-1) d) = Ok T /\
    shape T = bs ++ [R; C] /\
    forall b r c, length b = length bs ->
      item T (b ++ [r; c]) = table_cell data b r c.
Proof.
  intros Hsh.
  destruct (np_cumsum_rows data bs R C Hsh) as (A & HA & HshA & HitA).
  destruct (np_cumsum_cols A bs R C HshA) as (T & HT & HshT & HitT).
  exists T. rewrite HA. simpl. split; [done|]. split; [done|].
  intros b r c Hb. rewrite HitT by done. unfold table_cell.
  apply sum_upto_ext. intros t _. by apply HitA.
Qed.

Lemma table_difference data b r c i j :
  0 <= r -> 0 <= c -> 0 <= i -> 0 <= j ->
  table_cell data b (r + i) (c + j) - table_cell data b r (c + j)
  + table_cell data b r c - table_cell data b (r + i) c
  = window_sum data b (r + 1) (c + 1) i j.
Proof.
  intros Hr Hc Hi Hj. unfold table_cell, window_sum.
  set (col := fun t s => item data (b ++ [s; t])).
  set (D := fun t => sum_upto (Z.to_nat (r + i + 1)) (col t)
                     - sum_upto (Z.to_nat (r + 1)) (col t)).
  transitivity (sum_upto (Z.to_nat (c + j + 1)) D - sum_upto (Z.to_nat (c + 1)) D).
  { subst D col. cbv beta. rewrite !sum_upto_sub. lia. }
  replace (c + j + 1) with (c + 1 + j) by lia.
  rewrite sum_upto_diff by lia.
  rewrite sum_upto_swap. apply sum_upto_ext. intros d _.
  unfold D. replace (r + i + 1) with (r + 1 + i) by lia.
  rewrite sum_upto_diff by lia. done.
Qed.


Lemma boxsum_brute_batched data i j bs R C :
  shape data = bs ++ [R; C] ->
  shape (boxsum_brute data i j) = bs ++ [R - i; C - j] /\
  forall b r c, length b = length bs ->
    item (boxsum_brute data i j) (b ++ [r; c])
    = window_sum data b (r + 1) (c + 1) i j.
Proof.
  intros Hsh. unfold boxsum_brute, ndim. rewrite Hsh, length_app. simpl length.
  replace (length bs + 2 - 2)%nat with (length bs) by lia. split.
  - simpl. rewrite take_app_length, (coord_app_len bs), (coord_app_r bs) by done.
    done.
  - intros b r c Hb. simpl. rewrite <- Hb, take_app_length.
    rewrite (coord_app_len b), (coord_app_r b) by done. done.
Qed.

(** ** Slicing and broadcasting on batched matrices *)

Lemma getitem_last2_batched a bs R C s1 s2 :
  shape a = bs ++ [R; C] ->
  exists x, getitem_last2 a s1 s2 = Ok x /\
    shape x = bs ++ [slice_len R s1; slice_len C s2] /\
    forall b r c, length b = length bs ->
      item x (b ++ [r; c]) =
      item a (b ++ [r + slice_start R s1; c + slice_start C s2]).
Proof.
  intros Hsh. unfold getitem_last2, ndim. rewrite Hsh, length_app. simpl length.
  destruct (decide _) as [_|]; [|lia].
  replace (length bs + 2 - 1)%nat with (length bs + 1)%nat by lia.
  replace (length bs + 2 - 2)%nat with (length bs) by lia.
  eexists. split; [reflexivity|]. split.
  - simpl. rewrite Hsh, (coord_app_len bs), (insert_app_len bs) by done. simpl.
    rewrite (coord_app_r bs), (insert_app_at bs) by done. done.
  - intros b r c Hb. simpl. rewrite Hsh.
    rewrite (coord_app_len bs), (insert_app_len bs) by done. simpl.
    rewrite (coord_app_r bs), (coord_app_r b), (insert_app_at b) by done. simpl.
    rewrite (coord_app_len b), (insert_app_len b) by done. done.
Qed.

Lemma broadcast_rev_same l : broadcast_rev l l = Ok l.
Proof.
  induction l as [|d l IH]; simpl; [done|].
  unfold broadcast_dim. rewrite Z.eqb_refl. simpl. by rewrite IH.
Qed.

Lemma broadcast_shapes_same sh : broadcast_shapes sh sh = Ok sh.
Proof.
  unfold broadcast_shapes. rewrite broadcast_rev_same. simpl.
  by rewrite reverse_involutive.
Qed.

Lemma broadcast_dim_refl d : broadcast_dim d d = Ok d.
Proof. unfold broadcast_dim. by rewrite Z.eqb_refl. Qed.

Lemma broadcast_dim_error d1 d2 e : broadcast_dim d1 d2 = Raise e -> e = ValueError.
Proof. unfold broadcast_dim. zbool; congruence. Qed.

Lemma broadcast_shapes_batched bs a1 c1 a2 c2 a c :
  broadcast_dim a1 a2 = Ok a -> broadcast_dim c1 c2 = Ok c ->
  broadcast_shapes (bs ++ [a1; c1]) (bs ++ [a2; c2]) = Ok (bs ++ [a; c]).
Proof.
  intros Ha Hc. unfold broadcast_shapes. rewrite !reverse_app. simpl.
  rewrite Hc. simpl. rewrite Ha. simpl. rewrite broadcast_rev_same. simpl.
  f_equal. rewrite !reverse_cons, reverse_involutive, <- !app_assoc. done.
Qed.

Lemma broadcast_shapes_batched_fail bs a1 c1 a2 c2 :
  broadcast_dim a1 a2 = Raise ValueError \/ broadcast_dim c1 c2 = Raise ValueError ->
  broadcast_shapes (bs ++ [a1; c1]) (bs ++ [a2; c2]) = Raise ValueError.
Proof.
  intros H. unfold broadcast_shapes. rewrite !reverse_app. simpl.
  destruct (broadcast_dim c1 c2) as [c|e] eqn:Ec; simpl.
  - destruct H as [->|?]; [done|congruence].
  - by rewrite (broadcast_dim_error _ _ _ Ec).
Qed.

Lemma bcast_index_in_bounds sh idx : in_bounds sh idx -> bcast_index sh idx = idx.
Proof.
  intros H. unfold bcast_index.
  rewrite (in_bounds_length _ _ H), Nat.sub_diag, drop_0.
  induction H as [|d t sh idx Hdt H IH]; simpl; [done|].
  rewrite IH. f_equal. zbool.
Qed.

Lemma np_binop_same f a b sh :
  shape a = sh -> shape b = sh ->
  exists x, np_binop f a b = Ok x /\ shape x = sh /\
    forall idx, in_bounds sh idx -> item x idx = f (item a idx) (item b idx).
Proof.
  intros Ha Hb. unfold np_binop. rewrite Ha, Hb, broadcast_shapes_same. simpl.
  eexists. split; [reflexivity|]. split; [done|].
  intros idx Hidx. simpl. by rewrite bcast_index_in_bounds.
Qed.

Lemma np_binop_shape f a b sh :
  broadcast_shapes (shape a) (shape b) = Ok sh ->
  exists x, np_binop f a b = Ok x /\ shape x = sh.
Proof. intros H. unfold np_binop. rewrite H. simpl. by eexists. Qed.

Lemma np_binop_fail f a b e :
  broadcast_shapes (shape a) (shape b) = Raise e -> np_binop f a b = Raise e.
Proof. intros H. unfold np_binop. by rewrite H. Qed.

Lemma slice_fit_hi len i :
  0 <= i <= len ->
  slice_start len (Some i, Some (i + (len - i))) = i /\
  slice_len len (Some i, Some (i + (len - i))) = len - i.
Proof.
  intros H. unfold slice_len, slice_start, slice_stop, slice_bound. simpl.
  zbool; lia.
Qed.

Lemma slice_fit_lo len i :
  0 <= i <= len ->
  slice_start len (None, Some (len - i)) = 0 /\
  slice_len len (None, Some (len - i)) = len - i.
Proof.
  intros H. unfold slice_len, slice_start, slice_stop, slice_bound. simpl.
  zbool; lia.
Qed.

Lemma slice_len_hi R i :
  0 <= R -> 0 <= i ->
  slice_len R (Some i, Some (i + (R - i))) = Z.max 0 (R - i).
Proof.
  intros HR Hi. unfold slice_len, slice_start, slice_stop, slice_bound. simpl.
  zbool; lia.
Qed.

Lemma slice_len_lo R i :
  0 <= R -> 0 <= i ->
  slice_len R (None, Some (R - i))
  = if R - i <? 0 then Z.max 0 (2 * R - i) else R - i.
Proof.
  intros HR Hi. unfold slice_len, slice_start, slice_stop, slice_bound. simpl.
  zbool; lia.
Qed.

(** The lengths of the slices [i : i + m] and [: m] of an axis of
    length [R], where m = R - i. *)
Lemma slices_broadcast R i :
  0 <= R -> 1 <= i -> i <= R \/ 2 * R - 1 <= i ->
  let A := slice_len R (Some i, Some (i + (R - i))) in
  let B := slice_len R (None, Some (R - i)) in
  A = Z.max 0 (R - i) /\ broadcast_dim A B = Ok A /\ broadcast_dim A A = Ok A.
Proof.
  intros HR Hi Hok. cbv zeta.
  rewrite slice_len_hi, slice_len_lo by lia.
  split; [done|]. unfold broadcast_dim. zbool; split; (done || f_equal; lia).
Qed.

Lemma slices_do_not_broadcast R i :
  R < i < 2 * R - 1 ->
  broadcast_dim (slice_len R (Some i, Some (i + (R - i))))
                (slice_len R (None, Some (R - i))) = Raise ValueError.
Proof.
  intros H. rewrite slice_len_hi, slice_len_lo by lia.
  unfold broadcast_dim. zbool. done.
Qed.

(** ** Padding of matrices and of stacks of matrices *)

Lemma pad_lane_inside mode before after n f t :
  0 <= t < n -> pad_lane mode before after n f (before + t) = f t.
Proof. intros H. unfold pad_lane. zbool. f_equal. lia. Qed.

Lemma np_pad_2d a R C rb re cb ce mode :
  shape a = [R; C] ->
  0 <= rb -> 0 <= re -> 0 <= cb -> 0 <= ce ->
  extends_empty mode = true \/ (R <> 0 /\ C <> 0) ->
  exists P, np_pad a [(rb, re); (cb, ce)] mode = Ok P /\
    shape P = [rb + R + re; cb + C + ce] /\
    forall r c, item P [r; c] =
      pad_lane mode cb ce C
        (fun s => pad_lane mode rb re R (fun u => item a [u; s]) r) c.
Proof.
  intros Hsh Hrb Hre Hcb Hce Hne. unfold np_pad, ndim. rewrite Hsh. simpl.
  assert (Hneg : (rb <? 0) || (re <? 0) || ((cb <? 0) || (ce <? 0) || false) = false)
    by zbool.
  rewrite Hneg.
  assert (Hemp : negb (extends_empty mode) &&
            ((R =? 0) && negb ((rb =? 0) && (re =? 0))
             || ((C =? 0) && negb ((cb =? 0) && (ce =? 0)) || false)) = false).
  { destruct Hne as [->|[HR HC]]; [done|].
    destruct (Z.eqb_spec R 0); [done|]. destruct (Z.eqb_spec C 0); [done|].
    simpl. apply andb_false_r. }
  rewrite Hemp.
  eexists. split; [reflexivity|]. split.
  - simpl. by rewrite Hsh.
  - intros r c. simpl. by rewrite Hsh.
Qed.

Lemma np_pad_3d a B R C rb re cb ce mode :
  shape a = [B; R; C] ->
  0 <= rb -> 0 <= re -> 0 <= cb -> 0 <= ce ->
  extends_empty mode = true \/ (R <> 0 /\ C <> 0) ->
  exists P, np_pad a [(0, 0); (rb, re); (cb, ce)] mode = Ok P /\
    shape P = [B; rb + R + re; cb + C + ce] /\
    forall b r c, 0 <= b < B -> item P [b; r; c] =
      pad_lane mode cb ce C
        (fun s => pad_lane mode rb re R (fun u => item a [b; u; s]) r) c.
Proof.
  intros Hsh Hrb Hre Hcb Hce Hne. unfold np_pad, ndim. rewrite Hsh. simpl.
  assert (Hneg : (rb <? 0) || (re <? 0) || ((cb <? 0) || (ce <? 0) || false) = false)
    by zbool.
  rewrite Hneg.
  assert (Hemp : negb (extends_empty mode) &&
            ((B =? 0) && false
             || ((R =? 0) && negb ((rb =? 0) && (re =? 0))
                 || ((C =? 0) && negb ((cb =? 0) && (ce =? 0)) || false))) = false).
  { rewrite andb_false_r. simpl.
    destruct Hne as [->|[HR HC]]; [done|].
    destruct (Z.eqb_spec R 0); [done|]. destruct (Z.eqb_spec C 0); [done|].
    simpl. apply andb_false_r. }
  rewrite Hemp.
  eexists. split; [reflexivity|]. split.
  - simpl. rewrite Hsh. unfold coord. simpl. f_equal. lia.
  - intros b r c Hb. simpl. rewrite Hsh. simpl. unfold coord, lane. simpl.
    f_equal. apply functional_extensionality. intros s.
    f_equal. apply functional_extensionality. intros u.
    unfold pad_lane. zbool. by rewrite Z.sub_0_r.
Qed.

(** The padded axis is never shorter than the box: 2 (i // 2) + 1 >= i. *)
Lemma box_pad_fits i R : 0 <= i -> 0 <= R -> i <= i / 2 + 1 + R + i / 2.
Proof. intros. pose proof (Z.div_mod i 2). pose proof (Z.mod_pos_bound i 2). lia. Qed.

Lemma box_pad_odd i R : i mod 2 = 1 -> i / 2 + 1 + R + i / 2 - i = R.
Proof. intros. pose proof (Z.div_mod i 2). lia. Qed.

Lemma box_pad_even i R : i mod 2 = 0 -> i / 2 + 1 + R + i / 2 - i = R + 1.
Proof. intros. pose proof (Z.div_mod i 2). lia. Qed.

(** The three modes on the grid [[1, 2, 3], [4, 5, 6]], padded by one
    row above and below and two columns left and right. *)
Example np_pad_constant :
  to_rows <$> np_pad grid23 [(1, 1); (2, 2)] (mode_constant 0)
  = Ok [[0; 0; 0; 0; 0; 0; 0]; [0; 0; 1; 2; 3; 0; 0];
        [0; 0; 4; 5; 6; 0; 0]; [0; 0; 0; 0; 0; 0; 0]].
Proof. reflexivity. Qed.

Example np_pad_edge :
  to_rows <$> np_pad grid23 [(1, 1); (2, 2)] mode_edge
  = Ok [[1; 1; 1; 2; 3; 3; 3]; [1; 1; 1; 2; 3; 3; 3];
        [4; 4; 4; 5; 6; 6; 6]; [4; 4; 4; 5; 6; 6; 6]].
Proof. reflexivity. Qed.

Example np_pad_reflect :
  to_rows <$> np_pad grid23 [(1, 1); (2, 2)] mode_reflect
  = Ok [[6; 5; 4; 5; 6; 5; 4]; [3; 2; 1; 2; 3; 2; 1];
        [6; 5; 4; 5; 6; 5; 4]; [3; 2; 1; 2; 3; 2; 1]].
Proof. reflexivity. Qed.

(** An empty axis is only extended with a constant. *)
Example np_pad_empty_axis :
  shape <$> np_pad (np_full [0; 3] 0) [(1, 0); (1, 0)] (mode_constant 0) = Ok [1; 4] /\
  np_pad (np_full [0; 3] 0) [(1, 0); (1, 0)] mode_edge = Raise ValueError.
Proof. split; reflexivity. Qed.

(** ** [boxsum] one stage at a time *)

Lemma boxsum_padded data box cs mode :
  boxsum data box cs (Some mode)
  = (P ← pad_boxsum data box mode; boxsum P box cs None).
Proof.
  unfold boxsum, pad_boxsum. simpl atleast_1d.
  destruct (py_index (atleast_1d box) 0) as [b0|]; simpl; [|done].
  destruct (py_index (atleast_1d box) (-1)) as [b1|]; simpl; [|done].
  destruct (np_pad _ _ _); done.
Qed.

Lemma boxsum_accumulated data box :
  boxsum data box true None
  = (T ← (d ← np_cumsum (-2) data; np_cumsum (-1) d); boxsum T box false None).
Proof.
  unfold boxsum. simpl.
  destruct (np_cumsum (-2) data) as [d|]; simpl; [|done].
  destruct (np_cumsum (-1) d); done.
Qed.

Lemma boxsum_on_input data box cs pad_options :
  boxsum data box cs pad_options
  = (P ← boxsum_input data box pad_options; boxsum P box cs None).
Proof. destruct pad_options as [mode|]; simpl; [apply boxsum_padded|done]. Qed.

Lemma box_value_ext cs T T' b b' r c i j :
  (forall r c, item T (b ++ [r; c]) = item T' (b' ++ [r; c])) ->
  box_value cs T b r c i j = box_value cs T' b' r c i j.
Proof.
  intros H. unfold box_value, window_sum. destruct cs.
  - apply sum_upto_ext. intros a _. apply sum_upto_ext. intros d _. apply H.
  - by rewrite !H.
Qed.

Lemma mapM_result_Forall2 {A B} (f : A -> result B) (Q : A -> B -> Prop) l :
  (forall x, x ∈ l -> exists y, f x = Ok y /\ Q x y) ->
  exists ys, mapM f l = Ok ys /\ Forall2 Q l ys.
Proof.
  induction l as [|x l IH]; intros H.
  - exists []. split; [done|constructor].
  - destruct (H x) as (y & Hy & HQ); [by left|].
    destruct IH as (ys & Hys & HF); [intros; apply H; by right|].
    exists (y :: ys). split; [|by constructor].
    simpl. rewrite Hy. simpl. by rewrite Hys.
Qed.

Lemma np_stack_same_shape arrays sh :
  arrays <> [] -> Forall (fun x => shape x = sh) arrays ->
  exists st, np_stack arrays = Ok st /\
    shape st = Z.of_nat (length arrays) :: sh /\
    forall b x idx, arrays !! Z.to_nat b = Some x -> item st (b :: idx) = item x idx.
Proof.
  intros Hne HF. destruct arrays as [|a rest]; [done|].
  unfold np_stack. inversion HF as [|? ? Ha Hrest]; subst.
  assert (Hall : forallb (fun x => bool_decide (shape x = shape a)) rest = true).
  { apply forallb_forall. intros x Hx. apply bool_decide_eq_true.
    rewrite Forall_forall in Hrest. apply Hrest. by apply list_elem_of_In. }
  rewrite Hall. eexists. split; [reflexivity|]. split; [done|].
  intros b x idx Hx. simpl. simpl in Hx. by rewrite Hx.
Qed.

(** ** [boxsum] for a given box size

    Throughout, [i] and [j] are what [boxsize[0]] and [boxsize[-1]]
    evaluate to: the two are equal for an int and may differ for a
    pair. *)

Section BoxSize.

Variables (box : int_or_ints) (i j : Z).
Hypothesis Hi : py_index (atleast_1d box) 0 = Ok i.
Hypothesis Hj : py_index (atleast_1d box) (-1) = Ok j.

Lemma pad_boxsum_2d data R C mode :
  shape data = [R; C] ->
  0 <= i -> 0 <= j ->
  extends_empty mode = true \/ (R <> 0 /\ C <> 0) ->
  exists P, pad_boxsum data box mode = Ok P /\
    shape P = [i / 2 + 1 + R + i / 2; j / 2 + 1 + C + j / 2] /\
    forall r c, item P [r; c] =
      pad_lane mode (j / 2 + 1) (j / 2) C
        (fun s => pad_lane mode (i / 2 + 1) (i / 2) R (fun u => item data [u; s]) r) c.
Proof.
  intros Hsh Hi0 Hj0 Hne. unfold pad_boxsum. rewrite Hi, Hj. simpl.
  unfold ndim. rewrite Hsh. simpl.
  assert (0 <= i / 2) by (apply Z.div_pos; lia).
  assert (0 <= j / 2) by (apply Z.div_pos; lia).
  apply np_pad_2d; (done || lia).
Qed.

Lemma pad_boxsum_3d data B R C mode :
  shape data = [B; R; C] ->
  0 <= i -> 0 <= j ->
  extends_empty mode = true \/ (R <> 0 /\ C <> 0) ->
  exists P, pad_boxsum data box mode = Ok P /\
    shape P = [B; i / 2 + 1 + R + i / 2; j / 2 + 1 + C + j / 2] /\
    forall b r c, 0 <= b < B -> item P [b; r; c] =
      pad_lane mode (j / 2 + 1) (j / 2) C
        (fun s => pad_lane mode (i / 2 + 1) (i / 2) R
                    (fun u => item data [b; u; s]) r) c.
Proof.
  intros Hsh Hi0 Hj0 Hne. unfold pad_boxsum. rewrite Hi, Hj. simpl.
  unfold ndim. rewrite Hsh. simpl.
  assert (0 <= i / 2) by (apply Z.div_pos; lia).
  assert (0 <= j / 2) by (apply Z.div_pos; lia).
  apply np_pad_3d; (done || lia).
Qed.

(** Without padding and on an already accumulated table, [boxsum]
    returns the four-corner difference at every position. *)
Lemma boxsum_table T bs R C :
  shape T = bs ++ [R; C] ->
  0 <= i <= R -> 0 <= j <= C ->
  exists res, boxsum T box false None = Ok res /\
    shape res = bs ++ [R - i; C - j] /\
    forall b r c, in_bounds bs b -> 0 <= r < R - i -> 0 <= c < C - j ->
      item res (b ++ [r; c]) =
      item T (b ++ [r + i; c + j]) - item T (b ++ [r; c + j])
      + item T (b ++ [r; c]) - item T (b ++ [r + i; c]).
Proof.
  intros Hsh HiR HjC. unfold boxsum. simpl.
  rewrite Hi, Hj. simpl. rewrite Hsh, py_index_rows, py_index_cols. simpl.
  destruct (slice_fit_hi R i HiR) as [Hs1 Hl1].
  destruct (slice_fit_hi C j HjC) as [Hs2 Hl2].
  destruct (slice_fit_lo R i HiR) as [Hs3 Hl3].
  destruct (slice_fit_lo C j HjC) as [Hs4 Hl4].
  destruct (getitem_last2_batched T bs R C (Some i, Some (i + (R - i)))
              (Some j, Some (j + (C - j))) Hsh) as (t1 & -> & Hsh1 & Hit1).
  destruct (getitem_last2_batched T bs R C (None, Some (R - i))
              (Some j, Some (j + (C - j))) Hsh) as (t2 & -> & Hsh2 & Hit2).
  destruct (getitem_last2_batched T bs R C (None, Some (R - i))
              (None, Some (C - j)) Hsh) as (t3 & -> & Hsh3 & Hit3).
  destruct (getitem_last2_batched T bs R C (Some i, Some (i + (R - i)))
              (None, Some (C - j)) Hsh) as (t4 & -> & Hsh4 & Hit4).
  simpl.
  rewrite Hl1, Hl2 in Hsh1. rewrite Hl3, Hl2 in Hsh2.
  rewrite Hl3, Hl4 in Hsh3. rewrite Hl1, Hl4 in Hsh4.
  destruct (np_binop_same Z.sub t1 t2 _ Hsh1 Hsh2) as (d1 & Hd1 & Hshd1 & Hitd1).
  destruct (np_binop_same Z.add d1 t3 _ Hshd1 Hsh3) as (d2 & Hd2 & Hshd2 & Hitd2).
  destruct (np_binop_same Z.sub d2 t4 _ Hshd2 Hsh4) as (d3 & Hd3 & Hshd3 & Hitd3).
  unfold np_sub, np_add. rewrite Hd1. simpl. rewrite Hd2. simpl. rewrite Hd3.
  exists d3. split; [done|]. split; [done|].
  intros b r c Hb Hr Hc.
  assert (Hin : in_bounds (bs ++ [R - i; C - j]) (b ++ [r; c])).
  { apply in_bounds_app; [done|]. by apply in_bounds_pair. }
  assert (Hlen : length b = length bs) by by apply in_bounds_length.
  rewrite Hitd3, Hitd2, Hitd1 by done.
  rewrite Hit1, Hit2, Hit3, Hit4 by done.
  rewrite Hs1, Hs2, Hs3, Hs4. by rewrite !Z.add_0_r.
Qed.

(** With accumulation and no padding, every output cell is the
    brute-force sum of its window. *)
Lemma boxsum_windows data bs R C :
  shape data = bs ++ [R; C] ->
  0 <= i <= R -> 0 <= j <= C ->
  exists res, boxsum data box true None = Ok res /\
    shape res = bs ++ [R - i; C - j] /\
    forall b r c, in_bounds bs b -> 0 <= r < R - i -> 0 <= c < C - j ->
      item res (b ++ [r; c]) = window_sum data b (r + 1) (c + 1) i j.
Proof.
  intros Hsh HiR HjC. rewrite boxsum_accumulated.
  destruct (cumsum_rows_cols data bs R C Hsh) as (T & -> & HshT & HitT). simpl.
  destruct (boxsum_table T bs R C HshT HiR HjC)
    as (res & Hres & Hshres & Hitres).
  exists res. split; [done|]. split; [done|].
  intros b r c Hb Hr Hc. rewrite Hitres by done.
  assert (Hlen : length b = length bs) by by apply in_bounds_length.
  rewrite !HitT by done. apply table_difference; lia.
Qed.

Lemma boxsum_windows_2d data R C :
  shape data = [R; C] ->
  0 <= i <= R -> 0 <= j <= C ->
  exists res, boxsum data box true None = Ok res /\
    shape res = [R - i; C - j] /\
    forall r c, 0 <= r < R - i -> 0 <= c < C - j ->
      item res [r; c] = window_sum data [] (r + 1) (c + 1) i j.
Proof.
  intros Hsh HiR HjC.
  destruct (boxsum_windows data [] R C Hsh HiR HjC)
    as (res & Hres & Hshres & Hit).
  exists res. split; [done|]. split; [done|].
  intros r c Hr Hc. apply (Hit [] r c); (done || constructor).
Qed.

Lemma boxsum_unpadded cs T bs R C :
  shape T = bs ++ [R; C] ->
  0 <= i <= R -> 0 <= j <= C ->
  exists res, boxsum T box cs None = Ok res /\
    shape res = bs ++ [R - i; C - j] /\
    forall b r c, in_bounds bs b -> 0 <= r < R - i -> 0 <= c < C - j ->
      item res (b ++ [r; c]) = box_value cs T b r c i j.
Proof.
  intros Hsh HiR HjC. destruct cs.
  - by apply boxsum_windows.
  - by apply boxsum_table.
Qed.

(** The outcome of the table-difference step from the shapes alone. *)
Lemma boxsum_table_outcome T bs R C :
  shape T = bs ++ [R; C] ->
  0 <= R -> 0 <= C -> 1 <= i -> 1 <= j ->
  ((i <= R \/ 2 * R - 1 <= i) /\ (j <= C \/ 2 * C - 1 <= j) ->
   exists res, boxsum T box false None = Ok res /\
     shape res = bs ++ [Z.max 0 (R - i); Z.max 0 (C - j)]) /\
  (R < i < 2 * R - 1 \/ C < j < 2 * C - 1 ->
   boxsum T box false None = Raise ValueError).
Proof.
  intros Hsh HR HC Hi1 Hj1. unfold boxsum. simpl.
  rewrite Hi, Hj. simpl. rewrite Hsh, py_index_rows, py_index_cols. simpl.
  destruct (getitem_last2_batched T bs R C (Some i, Some (i + (R - i)))
              (Some j, Some (j + (C - j))) Hsh) as (t1 & -> & Hsh1 & _).
  destruct (getitem_last2_batched T bs R C (None, Some (R - i))
              (Some j, Some (j + (C - j))) Hsh) as (t2 & -> & Hsh2 & _).
  destruct (getitem_last2_batched T bs R C (None, Some (R - i))
              (None, Some (C - j)) Hsh) as (t3 & -> & Hsh3 & _).
  destruct (getitem_last2_batched T bs R C (Some i, Some (i + (R - i)))
              (None, Some (C - j)) Hsh) as (t4 & -> & Hsh4 & _).
  simpl. unfold np_sub, np_add.
  set (Ar := slice_len R (Some i, Some (i + (R - i)))) in *.
  set (Br := slice_len R (None, Some (R - i))) in *.
  set (Ac := slice_len C (Some j, Some (j + (C - j)))) in *.
  set (Bc := slice_len C (None, Some (C - j))) in *.
  split.
  - intros [HokR HokC].
    destruct (slices_broadcast R i HR Hi1 HokR) as (HAr & HbR & HrR).
    destruct (slices_broadcast C j HC Hj1 HokC) as (HAc & HbC & HrC).
    fold Ar Br in HAr, HbR, HrR. fold Ac Bc in HAc, HbC, HrC.
    destruct (np_binop_shape Z.sub t1 t2 (bs ++ [Ar; Ac])) as (d1 & -> & Hd1).
    { rewrite Hsh1, Hsh2. by apply broadcast_shapes_batched. }
    simpl.
    destruct (np_binop_shape Z.add d1 t3 (bs ++ [Ar; Ac])) as (d2 & -> & Hd2).
    { rewrite Hd1, Hsh3. by apply broadcast_shapes_batched. }
    simpl.
    destruct (np_binop_shape Z.sub d2 t4 (bs ++ [Ar; Ac])) as (d3 & -> & Hd3).
    { rewrite Hd2, Hsh4. by apply broadcast_shapes_batched. }
    exists d3. split; [done|]. by rewrite Hd3, HAr, HAc.
  - intros Hbad.
    destruct (decide (R < i < 2 * R - 1)) as [HbadR|HokR].
    + rewrite (np_binop_fail Z.sub t1 t2 ValueError); [done|].
      rewrite Hsh1, Hsh2. apply broadcast_shapes_batched_fail. left.
      by apply slices_do_not_broadcast.
    + destruct Hbad as [?|HbadC]; [done|].
      destruct (slices_broadcast R i HR Hi1) as (HAr & HbR & HrR); [lia|].
      fold Ar Br in HAr, HbR, HrR.
      destruct (np_binop_shape Z.sub t1 t2 (bs ++ [Ar; Ac])) as (d1 & -> & Hd1).
      { rewrite Hsh1, Hsh2. apply broadcast_shapes_batched; [done|].
        apply broadcast_dim_refl. }
      simpl. rewrite (np_binop_fail Z.add d1 t3 ValueError); [done|].
      rewrite Hd1, Hsh3. apply broadcast_shapes_batched_fail. right.
      by apply slices_do_not_broadcast.
Qed.

(** *** Box sums against brute-force window sums *)

(** C1. On the grid that [boxsum] works on (the grid itself, or the grid
    box-padded when pad options are given), for every box size
    (i, j) with 1 <= i <= rows and 1 <= j <= columns, [boxsum] with
    accumulation succeeds and its result is the array of brute-force
    window sums: same shape, and at every output position the total of
    the i by j window of input cells, in exact arithmetic.  Box sizes
    1, 3 and 5 are instances; batch axes are arbitrary. *)
Theorem boxsum_is_brute_force data pad_options P bs R C :
  boxsum_input data box pad_options = Ok P ->
  shape P = bs ++ [R; C] ->
  1 <= i <= R -> 1 <= j <= C ->
  exists res, boxsum data box true pad_options = Ok res /\
    same_array res (boxsum_brute P i j).
Proof.
  intros HP Hsh HiR HjC. rewrite boxsum_on_input, HP. simpl.
  destruct (boxsum_windows P bs R C Hsh) as (res & Hres & Hshres & Hit);
    [lia|lia|].
  destruct (boxsum_brute_batched P i j bs R C Hsh) as [Hshb Hitb].
  exists res. split; [done|]. split; [congruence|].
  intros idx Hidx. rewrite Hshres in Hidx.
  apply in_bounds_batched in Hidx as (b & r & c & -> & Hb & Hr & Hc).
  rewrite Hit by done. rewrite Hitb; [done|]. by apply in_bounds_length.
Qed.

(** *** Shapes after box padding: odd and even extents *)

(** Box padding adds 2 (i // 2) + 1 cells to an axis and the table
    difference removes i: the axis comes back with its own length
    when i is odd and one cell longer when i is even. *)
Lemma boxsum_padded_shape_2d data cs mode R C :
  shape data = [R; C] ->
  1 <= i -> 1 <= j -> 1 <= R -> 1 <= C ->
  exists res, boxsum data box cs (Some mode) = Ok res /\
    shape res = [R + (1 - i mod 2); C + (1 - j mod 2)].
Proof.
  intros Hsh Hi1 Hj1 HR HC. rewrite boxsum_padded.
  destruct (pad_boxsum_2d data R C mode Hsh)
    as (P & -> & HshP & _); [lia|lia|right; lia|]. simpl.
  destruct (boxsum_unpadded cs P [] _ _ HshP)
    as (res & -> & Hshres & _).
  { split; [lia|apply box_pad_fits; lia]. }
  { split; [lia|apply box_pad_fits; lia]. }
  exists res. split; [done|]. rewrite Hshres. simpl.
  pose proof (Z.div_mod i 2). pose proof (Z.div_mod j 2).
  f_equal; [lia|f_equal; lia].
Qed.

Lemma boxsum_padded_odd_box data cs mode R C :
  shape data = [R; C] ->
  1 <= i -> 1 <= j -> 1 <= R -> 1 <= C ->
  i mod 2 = 1 -> j mod 2 = 1 ->
  exists res, boxsum data box cs (Some mode) = Ok res /\ shape res = shape data.
Proof.
  intros Hsh Hi1 Hj1 HR HC Hio Hjo.
  destruct (boxsum_padded_shape_2d data cs mode R C)
    as (res & Hres & Hshres); try done.
  exists res. split; [done|]. rewrite Hshres, Hsh, Hio, Hjo.
  f_equal; [lia|f_equal; lia].
Qed.

(** With padding, an output cell whose window lies inside the grid
    holds the brute-force sum of the window of the grid itself that
    starts i // 2 rows above and j // 2 columns left of the cell: the
    window centred on the cell when the extents are odd. *)
Lemma boxsum_padded_interior data mode R C r c :
  shape data = [R; C] ->
  1 <= i -> 1 <= j ->
  0 <= r - i / 2 -> r - i / 2 + i <= R ->
  0 <= c - j / 2 -> c - j / 2 + j <= C ->
  exists res, boxsum data box true (Some mode) = Ok res /\
    item res [r; c] = window_sum data [] (r - i / 2) (c - j / 2) i j.
Proof.
  intros Hsh Hi1 Hj1 Hr0 Hr1 Hc0 Hc1. rewrite boxsum_padded.
  destruct (pad_boxsum_2d data R C mode Hsh)
    as (P & -> & HshP & HitP); [lia|lia|right; lia|]. simpl.
  pose proof (Z.div_mod i 2). pose proof (Z.div_mod j 2).
  pose proof (Z.mod_pos_bound i 2). pose proof (Z.mod_pos_bound j 2).
  destruct (boxsum_windows_2d P _ _ HshP) as (res & -> & _ & Hit); [lia|lia|].
  exists res. split; [done|]. rewrite Hit by lia.
  unfold window_sum. apply sum_upto_ext. intros a Ha.
  apply sum_upto_ext. intros d Hd. simpl. rewrite HitP.
  replace (c + 1 + d) with (j / 2 + 1 + (c - j / 2 + d)) by lia.
  rewrite pad_lane_inside by lia.
  replace (r + 1 + a) with (i / 2 + 1 + (r - i / 2 + a)) by lia.
  rewrite pad_lane_inside by lia. done.
Qed.

(** *** Batch independence *)

(** The input of [boxsum] on a stack of matrices, slice by slice. *)
Lemma boxsum_input_slices data pad_options B R C :
  shape data = [B; R; C] ->
  1 <= i <= R -> 1 <= j <= C ->
  exists P R' C', boxsum_input data box pad_options = Ok P /\
    shape P = [B; R'; C'] /\ i <= R' /\ j <= C' /\
    forall b, 0 <= b < B ->
      exists Pb, boxsum_input (subarray data b) box pad_options = Ok Pb /\
        shape Pb = [R'; C'] /\
        forall r c, item P [b; r; c] = item Pb [r; c].
Proof.
  intros Hsh HiR HjC. destruct pad_options as [mode|]; simpl.
  - destruct (pad_boxsum_3d data B R C mode Hsh)
      as (P & HP & HshP & HitP); [lia|lia|right; lia|].
    exists P, (i / 2 + 1 + R + i / 2), (j / 2 + 1 + C + j / 2).
    split; [done|]. split; [done|].
    split; [apply box_pad_fits; lia|]. split; [apply box_pad_fits; lia|].
    intros b Hb.
    destruct (pad_boxsum_2d (subarray data b) R C mode)
      as (Pb & HPb & HshPb & HitPb); [by simpl; rewrite Hsh|lia|lia|right; lia|].
    exists Pb. split; [done|]. split; [done|].
    intros r c. by rewrite HitP, HitPb.
  - exists data, R, C. split; [done|]. split; [done|]. split; [lia|]. split; [lia|].
    intros b Hb. exists (subarray data b). split; [done|].
    split; [by simpl; rewrite Hsh|done].
Qed.

(** C6. For a 3-D grid with a leading batch axis of size B >= 1 and a
    box that fits the grid, with or without pad options and with or
    without accumulation, [boxsum] of the whole grid succeeds, [boxsum]
    of each of the B slices succeeds, and the stack of the slice
    results along a new first axis is the result for the whole grid. *)
Theorem boxsum_batch_independent data cs pad_options B R C :
  shape data = [B; R; C] ->
  1 <= B ->
  1 <= i <= R -> 1 <= j <= C ->
  exists whole slices stacked,
    boxsum data box cs pad_options = Ok whole /\
    mapM (fun b => boxsum (subarray data b) box cs pad_options) (seqZ 0 B)
      = Ok slices /\
    np_stack slices = Ok stacked /\
    same_array whole stacked.
Proof.
  intros Hsh HB HiR HjC.
  destruct (boxsum_input_slices data pad_options B R C Hsh HiR HjC)
    as (P & R' & C' & HP & HshP & HiR' & HjC' & Hslice).
  destruct (boxsum_unpadded cs P [B] R' C' HshP)
    as (whole & Hwhole & Hshw & Hitw); [lia|lia|].
  set (Q := fun (b : Z) (y : ndarray) =>
    shape y = [R' - i; C' - j] /\
    forall r c, 0 <= r < R' - i -> 0 <= c < C' - j ->
      item y [r; c] = item whole [b; r; c]).
  destruct (mapM_result_Forall2
              (fun b => boxsum (subarray data b) box cs pad_options) Q (seqZ 0 B))
    as (slices & Hslices & HF).
  { intros b Hb. apply elem_of_seqZ in Hb.
    destruct (Hslice b) as (Pb & HPb & HshPb & HitPb); [lia|].
    destruct (boxsum_unpadded cs Pb [] R' C' HshPb)
      as (y & Hy & Hshy & Hity); [lia|lia|].
    exists y. split.
    - rewrite boxsum_on_input, HPb. done.
    - split; [done|]. intros r c Hr Hc.
      assert (E1 : item y [r; c] = box_value cs Pb [] r c i j)
        by (apply (Hity [] r c); (done || constructor)).
      assert (E2 : item whole [b; r; c] = box_value cs P [b] r c i j)
        by (apply (Hitw [b] r c); [repeat constructor; lia|done|done]).
      rewrite E1, E2. symmetry. by apply box_value_ext. }
  assert (Hlen : length slices = Z.to_nat B).
  { rewrite <- (Forall2_length _ _ _ HF). apply length_seqZ. }
  destruct (np_stack_same_shape slices [R' - i; C' - j])
    as (stacked & Hst & Hshst & Hitst).
  { intros ->. simpl in Hlen. lia. }
  { apply Forall_forall. intros y Hy.
    apply list_elem_of_lookup in Hy as [k Hk].
    destruct (Forall2_lookup_r _ _ _ _ _ HF Hk) as (b & _ & HQ). apply HQ. }
  exists whole, slices, stacked.
  split; [by rewrite boxsum_on_input, HP|]. split; [done|]. split; [done|].
  split.
  - rewrite Hshw, Hshst, Hlen. simpl. f_equal. lia.
  - intros idx Hidx. rewrite Hshw in Hidx.
    apply (in_bounds_batched [B]) in Hidx as (b' & r & c & -> & Hb & Hr & Hc).
    inversion Hb as [|? b ? bb Hb0 Hnil]; subst. inversion Hnil; subst. simpl.
    assert (Hlk : seqZ 0 B !! Z.to_nat b = Some b).
    { rewrite lookup_seqZ_lt by lia. f_equal. lia. }
    destruct (Forall2_lookup_l _ _ _ _ _ HF Hlk) as (y & Hy & _ & HQ).
    rewrite (Hitst b y [r; c] Hy). symmetry. by apply HQ.
Qed.

(** *** Boxes larger than the grid *)

(** C8 as amended.  On the grid that [boxsum] works on, with R rows and
    C columns, and for a positive box size (i, j): when every extent
    either fits its axis or is at least twice the axis length minus one
    (i <= R or i >= 2R - 1, and likewise j and C), [boxsum] completes
    and the result has max(0, R - i) rows and max(0, C - j) columns, so
    it is empty along an axis the box exceeds; when R < i < 2R - 1 or
    C < j < 2C - 1 the four slices of the table do not broadcast
    together and [boxsum] raises ValueError. *)
Theorem boxsum_oversized_box data cs pad_options P bs R C :
  boxsum_input data box pad_options = Ok P ->
  shape P = bs ++ [R; C] ->
  0 <= R -> 0 <= C -> 1 <= i -> 1 <= j ->
  ((i <= R \/ 2 * R - 1 <= i) /\ (j <= C \/ 2 * C - 1 <= j) ->
   exists res, boxsum data box cs pad_options = Ok res /\
     shape res = bs ++ [Z.max 0 (R - i); Z.max 0 (C - j)]) /\
  (R < i < 2 * R - 1 \/ C < j < 2 * C - 1 ->
   boxsum data box cs pad_options = Raise ValueError).
Proof.
  intros HP Hsh HR HC Hi1 Hj1. rewrite boxsum_on_input, HP. simpl.
  destruct cs.
  - rewrite boxsum_accumulated.
    destruct (cumsum_rows_cols P bs R C Hsh) as (T & -> & HshT & _). simpl.
    by apply boxsum_table_outcome.
  - by apply boxsum_table_outcome.
Qed.

End BoxSize.

(** ** [boxsum] on examples and for box size 1 *)

Lemma boxsum_is_brute_force_witness :
  exists P res,
    boxsum_input ones45 (Int 3) (Some mode_edge) = Ok P /\
    boxsum ones45 (Int 3) true (Some mode_edge) = Ok res /\
    same_array res (boxsum_brute P 3 3).
Proof.
  pose proof (boxsum_is_brute_force (Int 3) 3 3 eq_refl eq_refl
                ones45 (Some mode_edge) _ [] 7 8
                eq_refl eq_refl ltac:(lia) ltac:(lia))
    as (res & Hres & Hsame).
  eexists. exists res. split; [reflexivity|]. split; assumption.
Defined.

Lemma boxsum_batch_independent_witness :
  exists whole slices stacked,
    boxsum stack223 (Int 1) true (Some mode_edge) = Ok whole /\
    mapM (fun b => boxsum (subarray stack223 b) (Int 1) true (Some mode_edge))
         (seqZ 0 2) = Ok slices /\
    np_stack slices = Ok stacked /\
    same_array whole stacked.
Proof.
  apply (boxsum_batch_independent (Int 1) 1 1 eq_refl eq_refl
           stack223 true (Some mode_edge) 2 2 3);
    (reflexivity || lia).
Defined.

Lemma boxsum_oversized_box_witness :
  (exists res, boxsum ones35 (Ints [5; 1]) true None = Ok res /\
     shape res = [0; 4]) /\
  boxsum ones35 (Ints [4; 1]) true None = Raise ValueError.
Proof.
  split.
  - apply (boxsum_oversized_box (Ints [5; 1]) 5 1 eq_refl eq_refl
             ones35 true None ones35 [] 3 5);
      (reflexivity || lia).
  - apply (boxsum_oversized_box (Ints [4; 1]) 4 1 eq_refl eq_refl
             ones35 true None ones35 [] 3 5);
      (reflexivity || lia).
Defined.

(** C8 as stated fails: on a 3 by 5 grid, a box of 4 rows and 1 column
    and no pad options make [boxsum] raise ValueError. *)
Lemma boxsum_oversized_box_raises :
  shape ones35 = [3; 5] /\
  boxsum ones35 (Ints [4; 1]) true None = Raise ValueError.
Proof. split; reflexivity. Qed.

(** C3 at a failing input: a 4 by 5 grid, box size 2 and constant
    padding give a 5 by 6 result, one row and one column more than the
    grid. *)
Theorem boxsum_even_box_grows :
  shape ones45 = [4; 5] /\
  shape <$> boxsum ones45 (Int 2) true (Some (mode_constant 0)) = Ok [5; 6].
Proof. split; reflexivity. Qed.

(** C5. Accumulating a grid along the second-to-last and then the last
    axis, as [boxsum] does, and calling [boxsum] with [cumsum = False]
    on that table gives exactly what [boxsum] with [cumsum = True]
    gives on the grid, with no pad options in either call (also when
    the grid has too few axes and both raise). *)
Theorem boxsum_of_own_table data box :
  (T ← (d ← np_cumsum (-2) data; np_cumsum (-1) d); boxsum T box false None)
  = boxsum data box true None.
Proof.
  unfold boxsum. simpl.
  destruct (np_cumsum (-2) data) as [d|]; simpl; [|reflexivity].
  destruct (np_cumsum (-1) d); reflexivity.
Qed.




(** The worked example of the specification: a 4 by 5 grid of ones
    and box size 3.  With edge replication every cell is 9; with a
    border of zeros a cell counts the cells of its window inside the
    grid, 4 in a corner and 6 on an edge; without padding only the
    windows inside the grid are left. *)
Example boxsum_ones_edge :
  to_rows <$> boxsum ones45 (Int 3) true (Some mode_edge)
  = Ok [[9; 9; 9; 9; 9]; [9; 9; 9; 9; 9]; [9; 9; 9; 9; 9]; [9; 9; 9; 9; 9]].
Proof. reflexivity. Qed.

Example boxsum_ones_zeros :
  to_rows <$> boxsum ones45 (Int 3) true (Some (mode_constant 0))
  = Ok [[4; 6; 6; 6; 4]; [6; 9; 9; 9; 6]; [6; 9; 9; 9; 6]; [4; 6; 6; 6; 4]].
Proof. reflexivity. Qed.

Example boxsum_ones_unpadded :
  (fun a => (shape a, to_rows a)) <$> boxsum ones45 (Int 3) true None
  = Ok ([1; 2], [[9; 9]]).
Proof. reflexivity. Qed.

(** ** Slices of tuples from the end *)

Lemma py_slice_neg_stop {A} (l : list A) (k : nat) :
  (1 <= k <= length l)%nat ->
  py_slice l (None, Some (- Z.of_nat k)) = take (length l - k) l.
Proof.
  intros Hk. unfold py_slice, slice_len, slice_start, slice_stop, slice_bound. simpl.
  zbool. rewrite drop_0. f_equal. lia.
Qed.

Lemma py_slice_neg_start {A} (l : list A) (k : nat) :
  (1 <= k <= length l)%nat ->
  py_slice l (Some (- Z.of_nat k), None) = drop (length l - k) l.
Proof.
  intros Hk. unfold py_slice, slice_len, slice_start, slice_stop, slice_bound. simpl.
  zbool.
  replace (Z.to_nat (0 `max` (- Z.of_nat k + Z.of_nat (length l))))
    with (length l - k)%nat by lia.
  apply take_ge. rewrite length_drop. lia.
Qed.

Lemma py_slice_zero_stop {A} (l : list A) x :
  x = 0 -> py_slice l (None, Some x) = [].
Proof.
  intros ->. unfold py_slice, slice_len, slice_start, slice_stop, slice_bound. simpl.
  replace (Z.min 0 (Z.of_nat (length l))) with 0 by lia. done.
Qed.

Lemma py_slice_zero_start {A} (l : list A) x :
  x = 0 -> py_slice l (Some x, None) = l.
Proof.
  intros ->. unfold py_slice, slice_len, slice_start, slice_stop, slice_bound. simpl.
  replace (Z.min 0 (Z.of_nat (length l))) with 0 by lia.
  rewrite Z.sub_0_r, drop_0. apply take_ge. lia.
Qed.

(** ** What [rolling_window] returns *)

Lemma window_dims_positive sp W :
  Forall2 (fun g w => w <= g) sp W ->
  Forall (fun d => 0 < d) (zip_with (fun g w => g - w + 1) sp W).
Proof.
  induction 1 as [|g w sp W Hgw _ IH]; simpl; constructor; [lia|done].
Qed.

Lemma rolling_window_inv h W wr v :
  length (strides h) = length (dims h) ->
  rolling_window h W wr = Ok v ->
  exists bs sp sb ss,
    dims h = bs ++ sp /\ strides h = sb ++ ss /\
    length sp = length W /\ length ss = length W /\ length sb = length bs /\
    dims v = bs ++ window_dims sp W ++ W /\
    strides v = sb ++ ss ++ ss /\
    base v = base h /\
    writeable v = writeable h && wr /\
    Forall (fun d => 0 < d) (dims v).
Proof.
  intros Hwf. unfold rolling_window.
  destruct (Z.leb_spec (Z.of_nat (length W)) (Z.of_nat (length (dims h))))
    as [Hk|]; simpl; [|done].
  destruct (forallb _ _) eqn:Hpos; simpl; [|done].
  unfold as_strided. destruct (decide _) as [Hlen|]; [|done].
  destruct (forallb (fun d => 0 <=? d) _); [|done].
  intros [= <-]. simpl.
  destruct (decide (length W = 0%nat)) as [HW0|HW0].
  - apply nil_length_inv in HW0. subst W.
    rewrite (py_slice_zero_stop (dims h)), (py_slice_zero_start (strides h)) in Hlen
      by done.
    rewrite zip_with_nil_r in Hlen. simpl in Hlen. rewrite length_app in Hlen.
    assert (Hs : strides h = []) by (apply nil_length_inv; lia).
    assert (Hd : dims h = []) by (apply nil_length_inv; lia).
    exists [], [], [], []. rewrite Hs, Hd. simpl.
    repeat split; done.
  - rewrite !py_slice_neg_stop, !py_slice_neg_start in * by lia.
    exists (take (length (dims h) - length W) (dims h)),
           (drop (length (dims h) - length W) (dims h)),
           (take (length (dims h) - length W) (strides h)),
           (drop (length (dims h) - length W) (strides h)).
    rewrite !take_drop, !length_drop, !length_take.
    repeat split; try done; try lia.
    + rewrite Hwf, app_assoc, take_drop. done.
    + apply Forall_forall. intros d Hd.
      rewrite forallb_forall in Hpos. apply list_elem_of_In, Hpos in Hd. lia.
Qed.

Lemma rolling_window_batched h W wr bs sp :
  dims h = bs ++ sp ->
  length sp = length W ->
  (1 <= length W)%nat ->
  length (strides h) = length (dims h) ->
  Forall (fun d => 0 < d) bs ->
  Forall (fun w => 0 < w) W ->
  Forall2 (fun g w => w <= g) sp W ->
  exists v, rolling_window h W wr = Ok v /\
    dims v = bs ++ window_dims sp W ++ W.
Proof.
  intros Hd Hsp Hk Hwf Hbs HW Hfit. unfold rolling_window.
  assert (Hn : length (dims h) = (length bs + length W)%nat)
    by (rewrite Hd, length_app; lia).
  destruct (Z.leb_spec (Z.of_nat (length W)) (Z.of_nat (length (dims h))));
    [|lia]. simpl.
  rewrite !py_slice_neg_stop, !py_slice_neg_start by lia.
  replace (length (dims h) - length W)%nat with (length bs) by lia.
  rewrite Hwf, Hn. replace (length bs + length W - length W)%nat with (length bs) by lia.
  rewrite Hd, take_app_length, drop_app_length.
  fold (window_dims sp W).
  assert (Hpos : forallb (fun d => 0 <? d) (bs ++ window_dims sp W ++ W) = true).
  { apply forallb_forall. intros d Hin. apply Z.ltb_lt.
    apply list_elem_of_In in Hin. revert d Hin. apply Forall_forall.
    repeat apply Forall_app_2; [done| |done].
    by apply window_dims_positive. }
  rewrite Hpos. simpl.
  unfold as_strided.
  destruct (decide _) as [_|Hlen].
  - assert (Hnn : forallb (fun d => 0 <=? d) (bs ++ window_dims sp W ++ W) = true).
    { apply forallb_forall. intros d Hin. rewrite forallb_forall in Hpos.
      apply Hpos in Hin. lia. }
    rewrite Hnn. by eexists.
  - exfalso. apply Hlen. unfold window_dims.
    rewrite !length_app, length_zip_with, length_drop. lia.
Qed.

(** C2 as amended.  For an array whose shape is [bs ++ sp], with every
    batch axis in [bs] of positive length, and a window shape [W] of
    at least one axis, as many as [sp], with positive extents none
    larger than its spatial axis, [rolling_window] returns a view of
    shape bs + (g - w + 1 for g, w in zip(sp, W)) + W. *)
Theorem rolling_window_shape h W wr bs sp :
  dims h = bs ++ sp ->
  length sp = length W ->
  (1 <= length W)%nat ->
  length (strides h) = length (dims h) ->
  Forall (fun d => 0 < d) bs ->
  Forall (fun w => 0 < w) W ->
  Forall2 (fun g w => w <= g) sp W ->
  exists v, rolling_window h W wr = Ok v /\
    dims v = bs ++ zip_with (fun g w => g - w + 1) sp W ++ W.
Proof. apply rolling_window_batched. Qed.

Lemma rolling_window_shape_witness :
  exists v, rolling_window (header [2; 4; 5]) [3; 3] false = Ok v /\
    dims v = [2; 2; 3; 3; 3].
Proof.
  apply (rolling_window_shape (header [2; 4; 5]) [3; 3] false [2] [4; 5]).
  - reflexivity.
  - reflexivity.
  - simpl. lia.
  - reflexivity.
  - repeat constructor.
  - repeat constructor.
  - repeat constructor; lia.
Defined.

(** C2 as stated fails: an array of shape (0, 5, 5) has three axes and
    both trailing axes hold a 3 by 3 window, yet [rolling_window]
    raises instead of returning a view of shape (0, 3, 3, 3, 3). *)
Lemma rolling_window_empty_batch_raises :
  let G := header [0; 5; 5] in
  let W := [3; 3] in
  Z.of_nat (length W) <= Z.of_nat (length (dims G)) /\
  Forall2 (fun g w => w <= g) [5; 5] W /\
  rolling_window G W false = Raise AssertionError.
Proof.
  split; [simpl; lia|]. split; [repeat constructor; lia|reflexivity].
Qed.

(** Every axis of the view must be positive: an empty batch axis, a
    window extent larger than its spatial axis or a window extent that
    is not positive fails the second [assert]. *)
Lemma rolling_window_nonpositive_axis h W wr bs sp :
  dims h = bs ++ sp ->
  length sp = length W ->
  (1 <= length W)%nat ->
  Exists (fun d => d <= 0) (bs ++ zip_with (fun g w => g - w + 1) sp W ++ W) ->
  rolling_window h W wr = Raise AssertionError.
Proof.
  intros Hd Hlen Hk Hex. unfold rolling_window.
  assert (Hn : length (dims h) = (length bs + length W)%nat)
    by (rewrite Hd, length_app; lia).
  destruct (Z.leb_spec (Z.of_nat (length W)) (Z.of_nat (length (dims h))));
    [|lia]. simpl.
  rewrite !py_slice_neg_stop, !py_slice_neg_start by lia.
  replace (length (dims h) - length W)%nat with (length bs) by lia.
  rewrite Hd, take_app_length, drop_app_length.
  destruct (forallb _ _) eqn:Hpos; [|done]. exfalso.
  rewrite forallb_forall in Hpos.
  apply Exists_exists in Hex as (d & Hin & Hd0).
  assert (0 < d); [|lia]. apply Z.ltb_lt, Hpos. by apply list_elem_of_In.
Qed.

(** C7. [rolling_window] raises, and returns no view, whenever the
    window shape has more axes than the array, or some output axis
    length g - w + 1 is not positive, that is some window extent is
    larger than its spatial axis.  The exception is the AssertionError
    of the failed [assert]. *)
Theorem rolling_window_rejects h W wr :
  (length (dims h) < length W)%nat \/
  (exists bs sp, dims h = bs ++ sp /\ length sp = length W /\
     Exists (fun d => d <= 0) (zip_with (fun g w => g - w + 1) sp W)) ->
  rolling_window h W wr = Raise AssertionError.
Proof.
  intros [Hk|(bs & sp & Hd & Hlen & Hex)].
  - unfold rolling_window.
    destruct (Z.leb_spec (Z.of_nat (length W)) (Z.of_nat (length (dims h))));
      [lia|done].
  - apply (rolling_window_nonpositive_axis h W wr bs sp); try done.
    + destruct W; [|simpl; lia]. rewrite zip_with_nil_r in Hex. inversion Hex.
    + apply Exists_app. right. apply Exists_app. by left.
Qed.

Lemma rolling_window_rejects_witness :
  rolling_window (header [4; 5]) [3; 6] false = Raise AssertionError /\
  rolling_window (header [5]) [1; 1] false = Raise AssertionError.
Proof.
  split.
  - apply (rolling_window_rejects (header [4; 5]) [3; 6] false). right.
    exists [], [4; 5]. split; [reflexivity|]. split; [reflexivity|].
    simpl. right. left. lia.
  - apply (rolling_window_rejects (header [5]) [1; 1] false). left. simpl. lia.
Defined.

(** A 3 by 3 window on a 4 by 5 array of 8-byte cells: 2 by 3 window
    positions, and the window axes step like the spatial axes. *)
Example rolling_window_4_5 :
  rolling_window (header [4; 5]) [3; 3] false
  = Ok {| base := 0; dims := [2; 3; 3; 3]; strides := [40; 8; 40; 8];
          writeable := false |}.
Proof. reflexivity. Qed.

(** With an empty window shape [shape[:-0]] is empty and
    [strides[-0:]] is all of the strides, so [as_strided] is given no
    axes and twice the strides. *)
Example rolling_window_no_window_axes :
  rolling_window (header [5]) [] false = Raise ValueError.
Proof. reflexivity. Qed.

(** ** Addresses of window cells *)

Lemma dot_app a b c d :
  length a = length c -> dot (a ++ b) (c ++ d) = dot a c + dot b d.
Proof.
  revert c. induction a as [|x a IH]; intros [|y c] Hlen; simpl in *; try done.
  unfold dot in *. simpl. rewrite IH by lia. lia.
Qed.

Lemma dot_add a b s :
  length a = length s -> length b = length s ->
  dot (zip_with Z.add a b) s = dot a s + dot b s.
Proof.
  revert b s. induction a as [|x a IH]; intros [|y b] [|z s] Ha Hb;
    simpl in *; try done.
  unfold dot in *. simpl. rewrite IH by lia. lia.
Qed.

Lemma source_index_parts k bs pos off :
  length pos = k -> length off = k ->
  source_index k (bs ++ pos ++ off) = bs ++ zip_with Z.add pos off.
Proof.
  intros Hp Ho. unfold source_index. rewrite !length_app.
  replace (length bs + (length pos + length off) - 2 * k)%nat with (length bs) by lia.
  rewrite take_app_length, drop_app_length.
  rewrite <- Hp, take_app_length.
  replace (bs ++ pos ++ off) with ((bs ++ pos) ++ off) by by rewrite <- app_assoc.
  replace (length bs + length pos)%nat with (length (bs ++ pos))
    by by rewrite length_app.
  by rewrite drop_app_length.
Qed.

Lemma norm_positions_in_bounds sh idx :
  in_bounds sh idx -> norm_positions sh idx = Ok idx.
Proof.
  induction 1 as [|d t sh idx Hdt _ IH]; simpl; [done|].
  unfold norm_position. zbool. by rewrite IH.
Qed.

Lemma in_bounds_window bs sp W idx :
  length sp = length W ->
  in_bounds (bs ++ window_dims sp W ++ W) idx ->
  exists b pos off, idx = b ++ pos ++ off /\
    length b = length bs /\ length pos = length W /\ length off = length W /\
    in_bounds (bs ++ sp) (b ++ zip_with Z.add pos off).
Proof.
  intros Hlen H.
  apply Forall2_app_inv_l in H as (b & rest & Hb & Hrest & ->).
  apply Forall2_app_inv_l in Hrest as (pos & off & Hpos & Hoff & ->).
  exists b, pos, off. split; [done|].
  pose proof (Forall2_length _ _ _ Hb) as Lb.
  pose proof (Forall2_length _ _ _ Hpos) as Lp.
  pose proof (Forall2_length _ _ _ Hoff) as Lo.
  unfold window_dims in Lp. rewrite length_zip_with in Lp.
  repeat split; try lia.
  apply in_bounds_app; [done|].
  clear Hb Lb. revert W pos off Hlen Hpos Hoff Lp Lo.
  induction sp as [|g sp IH]; intros [|w W] pos off Hlen Hpos Hoff Lp Lo;
    simpl in *; try done.
  - inversion Hpos; subst. constructor.
  - inversion Hpos as [|? p ? pos' Hp Hpos']; subst.
    inversion Hoff as [|? o ? off' Ho Hoff']; subst.
    simpl. constructor; [lia|]. apply (IH W); simpl in *; (done || lia).
Qed.

Lemma window_address h W wr v :
  length (strides h) = length (dims h) ->
  rolling_window h W wr = Ok v ->
  forall b pos off,
    (length b + length W = length (dims h))%nat ->
    length pos = length W -> length off = length W ->
    address v (b ++ pos ++ off) = address h (b ++ zip_with Z.add pos off).
Proof.
  intros Hwf Hv b pos off Hb Hp Ho.
  destruct (rolling_window_inv h W wr v Hwf Hv)
    as (bs & sp & sb & ss & Hd & Hs & Lsp & Lss & Lsb & _ & Hsv & Hbase & _).
  unfold address. rewrite Hbase, Hsv, Hs.
  assert (Lb : length b = length sb).
  { rewrite Hd, length_app in Hb. lia. }
  rewrite !dot_app by (done || lia).
  rewrite dot_add by lia. lia.
Qed.

(** A view position inside the view stands for a source position
    inside the source, and both have the same address. *)
Lemma window_cell h W wr v i :
  length (strides h) = length (dims h) ->
  rolling_window h W wr = Ok v ->
  in_bounds (dims v) i ->
  address v i = address h (source_index (length W) i) /\
  in_bounds (dims h) (source_index (length W) i).
Proof.
  intros Hwf Hv Hi.
  destruct (rolling_window_inv h W wr v Hwf Hv)
    as (bs & sp & sb & ss & Hd & Hs & Lsp & Lss & Lsb & Hdv & _).
  rewrite Hdv in Hi.
  apply in_bounds_window in Hi as (b & pos & off & -> & Lb & Lp & Lo & Hin);
    [|done].
  rewrite source_index_parts by done. split; [|by rewrite Hd].
  apply (window_address h W wr v Hwf Hv); [|done|done].
  rewrite Hd, length_app. lia.
Qed.

(** C9. The view returned by [rolling_window] lives on the cells of
    its source: the view cell at batch position [b], spatial position
    [pos] and window offset [off] has the address of the source cell
    at [b], [pos + off], so reading the view there reads that source
    cell.  Hence, through a writeable view of a writeable source, a
    value assigned at one view position is read back at every view
    position with the same source index, and in the source array at
    that index.  A view made with [writeable = False] refuses every
    assignment and leaves the store as it was. *)
Theorem rolling_window_shares_storage h W wr v :
  length (strides h) = length (dims h) ->
  rolling_window h W wr = Ok v ->
  (forall b pos off,
     (length b + length W = length (dims h))%nat ->
     length pos = length W -> length off = length W ->
     address v (b ++ pos ++ off) = address h (b ++ zip_with Z.add pos off)) /\
  (forall st i, in_bounds (dims v) i ->
     getitem st v i = getitem st h (source_index (length W) i)) /\
  (writeable h = true -> wr = true ->
   forall st i1 i2 x,
     in_bounds (dims v) i1 -> in_bounds (dims v) i2 ->
     source_index (length W) i1 = source_index (length W) i2 ->
     exists st', setitem st v i1 x = (st', Ok tt) /\
       getitem st' v i2 = Ok x /\
       getitem st' h (source_index (length W) i1) = Ok x) /\
  (wr = false ->
   forall st i x, setitem st v i x = (st, Raise ValueError)).
Proof.
  intros Hwf Hv. split; [by apply (window_address h W wr v)|].
  destruct (rolling_window_inv h W wr v Hwf Hv)
    as (_ & _ & _ & _ & _ & _ & _ & _ & _ & _ & _ & _ & Hw & _).
  split; [|split].
  - intros st i Hi.
    destruct (window_cell h W wr v i Hwf Hv Hi) as [Ha Hb].
    unfold getitem.
    rewrite (norm_positions_in_bounds _ _ Hi), (norm_positions_in_bounds _ _ Hb).
    simpl. by rewrite Ha.
  - intros Hwh Hwr st i1 i2 x Hi1 Hi2 Hsame.
    destruct (window_cell h W wr v i1 Hwf Hv Hi1) as [Ha1 Hb1].
    destruct (window_cell h W wr v i2 Hwf Hv Hi2) as [Ha2 _].
    unfold setitem. rewrite Hw, Hwh, Hwr. simpl.
    rewrite (norm_positions_in_bounds _ _ Hi1).
    eexists. split; [reflexivity|]. unfold getitem.
    rewrite (norm_positions_in_bounds _ _ Hi2), (norm_positions_in_bounds _ _ Hb1).
    simpl. rewrite Ha2, <- Hsame, <- Ha1, lookup_insert_eq. done.
  - intros -> st i x. unfold setitem. rewrite Hw, andb_false_r. done.
Qed.

Lemma rolling_window_shares_storage_witness :
  exists v, rolling_window (header [4; 5]) [3; 3] true = Ok v /\
    address v [1; 2; 0; 1] = address (header [4; 5]) [1; 3] /\
    (forall st, getitem st v [1; 2; 0; 1] = getitem st (header [4; 5]) [1; 3]) /\
    (forall st x, exists st',
       setitem st v [1; 2; 0; 1] x = (st', Ok tt) /\
       getitem st' v [0; 1; 1; 2] = Ok x /\
       getitem st' (header [4; 5]) [1; 3] = Ok x).
Proof.
  eexists. split; [reflexivity|].
  destruct (rolling_window_shares_storage (header [4; 5]) [3; 3] true _
              eq_refl eq_refl) as (Haddr & Hread & Hwrite & _).
  split; [|split].
  - apply (Haddr [] [1; 2] [0; 1]); reflexivity.
  - intros st. apply (Hread st [1; 2; 0; 1]). repeat constructor; lia.
  - intros st x.
    apply (Hwrite eq_refl eq_refl st [1; 2; 0; 1] [0; 1; 1; 2] x);
      [repeat constructor; lia|repeat constructor; lia|reflexivity].
Defined.

(** ** [pad_and_roll]: odd and even extents *)

Lemma c_strides_length sz sh : length (c_strides sz sh) = length sh.
Proof.
  unfold c_strides. induction sh as [|d sh IH]; simpl; [done|].
  destruct (foldr _ _ sh) as [s acc]. simpl in *. by rewrite IH.
Qed.

(** Symmetric padding adds 2 (w // 2) cells to an axis and the window
    view removes w - 1: again the axis keeps its length for an odd
    extent and grows by one for an even extent. *)
Lemma pad_and_roll_dims_2d st h kw kwargs w1 w2 R C :
  dims h = [R; C] -> 1 <= R -> 1 <= C -> 1 <= w1 -> 1 <= w2 ->
  exists v, snd (pad_and_roll st h [w1; w2] kw kwargs) = Ok v /\
    dims v = [R + (1 - w1 mod 2); C + (1 - w2 mod 2); w1; w2].
Proof.
  intros Hd HR HC Hw1 Hw2. unfold pad_and_roll, np_pad_strided. rewrite Hd. simpl.
  assert (0 <= w1 / 2) by (apply Z.div_pos; lia).
  assert (0 <= w2 / 2) by (apply Z.div_pos; lia).
  destruct (np_pad_2d (load st h) R C (w1 / 2) (w1 / 2) (w2 / 2) (w2 / 2)
              (default (mode_constant 0) kwargs))
    as (P & -> & HshP & _); [done|lia|lia|lia|lia|right; lia|].
  simpl.
  pose proof (Z.div_mod w1 2). pose proof (Z.div_mod w2 2).
  pose proof (Z.mod_pos_bound w1 2). pose proof (Z.mod_pos_bound w2 2).
  destruct (rolling_window_batched
              {| base := brk st; dims := shape P;
                 strides := c_strides itemsize (shape P); writeable := true |}
              [w1; w2] (default false kw) [] (shape P))
    as (v & -> & Hdv); simpl; try done.
  - by rewrite HshP.
  - lia.
  - apply c_strides_length.
  - repeat constructor; lia.
  - rewrite HshP. repeat constructor; lia.
  - exists v. split; [done|]. rewrite Hdv, HshP. unfold window_dims. simpl.
    f_equal; [lia|f_equal; lia].
Qed.

(** C4 at a failing input: [pad_and_roll] of a 4 by 5 grid with a 2 by
    2 window gives a view with 5 by 6 window positions, one row and
    one column more than the grid. *)
Theorem pad_and_roll_even_window_grows :
  let '(st, G) := alloc (Store ∅ 0) ones45 in
  dims G = [4; 5] /\
  dims <$> snd (pad_and_roll st G [2; 2] None None) = Ok [5; 6; 2; 2].
Proof. vm_compute. split; reflexivity. Qed.

(** * Part III: further properties of the module *)

(** ** numpy.pad on any number of axes *)

Lemma pad_fold_shape mode w :
  forall a pre suf,
    shape a = pre ++ suf -> length w = length suf ->
    shape (foldl (pad_axis mode) a (zip (seq (length pre) (length w)) w))
    = pre ++ padded_dims suf w.
Proof.
  induction w as [|[b e] w IH]; intros a pre suf Hsh Hlen.
  - destruct suf; [|done]. simpl. by rewrite Hsh.
  - destruct suf as [|d suf]; [done|]. simpl.
    replace (S (length pre)) with (length (pre ++ [b + d + e]))
      by (rewrite length_app; simpl; lia).
    rewrite (IH _ (pre ++ [b + d + e]) suf).
    + rewrite <- app_assoc. done.
    + simpl. rewrite Hsh, (coord_app_len pre), (insert_app_len pre) by done.
      simpl. by rewrite <- app_assoc.
    + simpl in Hlen. lia.
Qed.

Lemma pad_fold_inside mode w :
  forall a pre suf ipre isuf,
    shape a = pre ++ suf -> length w = length suf ->
    length ipre = length pre -> in_bounds suf isuf ->
    item (foldl (pad_axis mode) a (zip (seq (length pre) (length w)) w))
         (ipre ++ shifted isuf w)
    = item a (ipre ++ isuf).
Proof.
  induction w as [|[b e] w IH]; intros a pre suf ipre isuf Hsh Hlen Hip Hin.
  - destruct suf; [|done]. inversion Hin; subst. done.
  - destruct suf as [|d suf]; [done|].
    inversion Hin as [|? t ? isuf' Ht Hin']; subst. simpl.
    replace (S (length pre)) with (length (pre ++ [b + d + e]))
      by (rewrite length_app; simpl; lia).
    replace (ipre ++ (b + t) :: shifted isuf' w)
      with ((ipre ++ [b + t]) ++ shifted isuf' w) by by rewrite <- app_assoc.
    rewrite (IH _ (pre ++ [b + d + e]) suf (ipre ++ [b + t]) isuf').
    + rewrite <- app_assoc. simpl. unfold lane.
      rewrite Hsh, (coord_app_len pre), (coord_app_len ipre) by done.
      change (coord (d :: suf) 0) with d.
      change (coord (b + t :: isuf') 0) with (b + t).
      rewrite pad_lane_inside by done.
      by rewrite (insert_app_len ipre) by done.
    + simpl. rewrite Hsh, (coord_app_len pre), (insert_app_len pre) by done.
      simpl. by rewrite <- app_assoc.
    + simpl in Hlen. lia.
    + rewrite !length_app. simpl. lia.
    + done.
Qed.

Lemma existsb_false_Forall {A} (f : A -> bool) l :
  Forall (fun x => f x = false) l -> existsb f l = false.
Proof. induction 1 as [|x l Hx _ IH]; simpl; [done|]. by rewrite Hx, IH. Qed.

(** [numpy.pad] with one width pair per axis, none negative, on an
    array that the mode can extend: every axis grows by its two
    widths and the array sits unchanged behind the leading widths. *)
Lemma np_pad_any_axes a w mode :
  length w = ndim a ->
  Forall (fun p => 0 <= fst p /\ 0 <= snd p) w ->
  can_extend mode (shape a) w ->
  exists P, np_pad a w mode = Ok P /\
    shape P = padded_dims (shape a) w /\
    forall idx, in_bounds (shape a) idx -> item P (shifted idx w) = item a idx.
Proof.
  intros Hlen Hw Hne. unfold np_pad, as_pairs.
  destruct (decide _) as [_|]; [|done]. simpl.
  rewrite existsb_false_Forall.
  2:{ eapply Forall_impl; [exact Hw|]. intros p [H1 H2]. simpl. zbool. }
  assert (Hemp : negb (extends_empty mode) &&
            existsb (fun dp => (fst dp =? 0) &&
                       negb ((fst (snd dp) =? 0) && (snd (snd dp) =? 0)))
                    (zip (shape a) w) = false).
  { destruct Hne as [->|Hnz]; [done|]. apply andb_false_iff. right.
    clear -Hnz. induction Hnz as [|d p sh w Hdp _ IH]; simpl; [done|].
    rewrite IH, orb_false_r. destruct (Z.eqb_spec d 0) as [Hd|]; [|done].
    destruct (Hdp Hd) as [-> ->]. done. }
  rewrite Hemp. eexists. split; [reflexivity|].
  rewrite <- Hlen. split.
  - by apply (pad_fold_shape mode w a [] (shape a)).
  - intros idx Hidx.
    by apply (pad_fold_inside mode w a [] (shape a) [] idx).
Qed.

(** ** [pad_boxsum] on any number of batch axes *)

Lemma padded_dims_zero bs : padded_dims bs (replicate (length bs) (0, 0)) = bs.
Proof.
  unfold padded_dims. induction bs as [|d bs IH]; simpl; [done|].
  rewrite IH. f_equal. lia.
Qed.

Lemma shifted_zero n (b : list Z) :
  length b = n -> shifted b (replicate n (0, 0)) = b.
Proof.
  intros <-. unfold shifted. induction b as [|t b IH]; simpl; [done|].
  by rewrite IH.
Qed.

Lemma padded_dims_app s1 s2 w1 w2 :
  length s1 = length w1 ->
  padded_dims (s1 ++ s2) (w1 ++ w2) = padded_dims s1 w1 ++ padded_dims s2 w2.
Proof. intros H. unfold padded_dims. by rewrite zip_with_app. Qed.

Lemma shifted_app i1 i2 w1 w2 :
  length i1 = length w1 ->
  shifted (i1 ++ i2) (w1 ++ w2) = shifted i1 w1 ++ shifted i2 w2.
Proof. intros H. unfold shifted. by rewrite zip_with_app. Qed.

Lemma can_extend_batched mode bs sp w :
  Forall (fun d => d <> 0) sp -> length sp = length w ->
  can_extend mode (bs ++ sp) (replicate (length bs) (0, 0) ++ w).
Proof.
  intros Hsp Hlen. right. apply Forall2_app.
  - induction bs; simpl; constructor; done.
  - revert w Hlen. induction Hsp as [|d sp Hd _ IH]; intros [|p w] Hlen;
      simpl in *; try done; constructor; [done|]. apply IH. lia.
Qed.

Section BoxPad.

Variables (box : int_or_ints) (i j : Z).
Hypothesis Hi : py_index (atleast_1d box) 0 = Ok i.
Hypothesis Hj : py_index (atleast_1d box) (-1) = Ok j.

Lemma pad_boxsum_batched data bs R C mode :
  shape data = bs ++ [R; C] ->
  0 <= i -> 0 <= j ->
  extends_empty mode = true \/ (R <> 0 /\ C <> 0) ->
  exists P, pad_boxsum data box mode = Ok P /\
    shape P = bs ++ [i / 2 + 1 + R + i / 2; j / 2 + 1 + C + j / 2] /\
    forall b r c, in_bounds bs b -> 0 <= r < R -> 0 <= c < C ->
      item P (b ++ [i / 2 + 1 + r; j / 2 + 1 + c]) = item data (b ++ [r; c]).
Proof.
  intros Hsh Hi0 Hj0 Hne. unfold pad_boxsum. rewrite Hi, Hj. simpl.
  assert (0 <= i / 2) by (apply Z.div_pos; lia).
  assert (0 <= j / 2) by (apply Z.div_pos; lia).
  unfold ndim, py_repeat. rewrite Hsh, length_app. simpl length.
  replace (Z.to_nat (Z.of_nat (length bs + 2) - 2)) with (length bs) by lia.
  set (w := [(i / 2 + 1, i / 2); (j / 2 + 1, j / 2)]).
  destruct (np_pad_any_axes data (replicate (length bs) (0, 0) ++ w) mode)
    as (P & HP & HshP & HitP).
  - unfold ndim. rewrite Hsh, !length_app, length_replicate. done.
  - apply Forall_app. split.
    + apply Forall_forall. intros p Hp. apply elem_of_replicate in Hp as [-> _].
      simpl. lia.
    + subst w. repeat constructor; simpl; lia.
  - rewrite Hsh. destruct Hne as [He|[HR HC]]; [by left|].
    apply can_extend_batched; [|done]. by repeat constructor.
  - exists P. split; [done|]. rewrite HshP, Hsh. split.
    + rewrite padded_dims_app by by rewrite length_replicate.
      by rewrite padded_dims_zero.
    + intros b r c Hb Hr Hc. rewrite <- (HitP (b ++ [r; c])).
      * rewrite shifted_app
          by (rewrite length_replicate; by apply in_bounds_length).
        rewrite shifted_zero by by apply in_bounds_length. done.
      * rewrite Hsh. apply in_bounds_app; [done|]. by apply in_bounds_pair.
Qed.

End BoxPad.

(** ** Further properties of [boxsum] *)

Lemma sum_upto_const n v : sum_upto n (fun _ => v) = Z.of_nat n * v.
Proof. induction n as [|n IH]; simpl; [done|]. rewrite IH. lia. Qed.

Lemma boxsum_padded_batched box i j data cs mode bs R C :
  py_index (atleast_1d box) 0 = Ok i ->
  py_index (atleast_1d box) (-1) = Ok j ->
  shape data = bs ++ [R; C] ->
  1 <= i -> 1 <= j -> 1 <= R -> 1 <= C ->
  exists P res,
    pad_boxsum data box mode = Ok P /\
    boxsum data box cs (Some mode) = Ok res /\
    shape res = bs ++ [R + (1 - i mod 2); C + (1 - j mod 2)] /\
    (forall b r c, in_bounds bs b -> 0 <= r < R -> 0 <= c < C ->
       item P (b ++ [i / 2 + 1 + r; j / 2 + 1 + c]) = item data (b ++ [r; c])) /\
    (forall b r c, in_bounds bs b ->
       0 <= r < R + (1 - i mod 2) -> 0 <= c < C + (1 - j mod 2) ->
       item res (b ++ [r; c]) = box_value cs P b r c i j).
Proof.
  intros Hi Hj Hsh Hi1 Hj1 HR HC. rewrite boxsum_padded.
  destruct (pad_boxsum_batched box i j Hi Hj data bs R C mode Hsh)
    as (P & HP & HshP & HitP); [lia|lia|right; lia|].
  rewrite HP. simpl.
  pose proof (Z.div_mod i 2). pose proof (Z.div_mod j 2).
  pose proof (Z.mod_pos_bound i 2). pose proof (Z.mod_pos_bound j 2).
  destruct (boxsum_unpadded box i j Hi Hj cs P bs _ _ HshP)
    as (res & Hres & Hshres & Hit); [lia|lia|].
  exists P, res. split; [done|]. split; [done|]. split.
  - rewrite Hshres. f_equal. f_equal; [lia|f_equal; lia].
  - split; [done|]. intros b r c Hb Hr Hc. apply Hit; (done || lia).
Qed.

Lemma py_index_rows_missing {A} (l : list A) :
  (length l < 2)%nat -> py_index l (-2) = Raise IndexError.
Proof.
  intros Hl. unfold py_index. change (-2 <? 0) with true. cbv iota.
  destruct (Z.leb_spec 0 (-2 + Z.of_nat (length l))); [lia|done].
Qed.

(** X1. [boxsum] never returns an array for data with fewer than two
    axes: whatever the box size, the [cumsum] flag and the pad options,
    it raises. *)
Theorem boxsum_needs_two_axes data box cs pad_options :
  (ndim data < 2)%nat ->
  exists e, boxsum data box cs pad_options = Raise e.
Proof.
  intros Hn. unfold boxsum. destruct pad_options as [mode|]; simpl.
  - unfold pad_boxsum. simpl.
    destruct (py_index (atleast_1d box) 0) as [b0|e]; simpl; [|by eexists].
    destruct (py_index (atleast_1d box) (-1)) as [b1|e]; simpl; [|by eexists].
    unfold np_pad, as_pairs, py_repeat.
    replace (Z.to_nat (Z.of_nat (ndim data) - 2)) with 0%nat by lia. simpl.
    destruct (decide _) as [Heq|_]; [lia|]. simpl. by eexists.
  - destruct cs.
    + unfold np_cumsum at 2. unfold normalize_axis.
      destruct (Z.leb_spec (- Z.of_nat (ndim data)) (-2)); [lia|]. simpl.
      by eexists.
    + simpl.
      destruct (py_index (atleast_1d box) 0) as [b0|e]; simpl; [|by eexists].
      destruct (py_index (atleast_1d box) (-1)) as [b1|e]; simpl; [|by eexists].
      rewrite py_index_rows_missing by done. by eexists.
Qed.

Lemma boxsum_needs_two_axes_witness :
  exists e, boxsum (np_full [7] 1) (Int 3) true (Some mode_edge) = Raise e.
Proof. apply (boxsum_needs_two_axes (np_full [7] 1)). unfold ndim. simpl. lia. Defined.

(** X2. For data of shape (..., R, C) and box extents i, j >= 0,
    [pad_boxsum] returns an array of shape
    (..., R + 2 (i // 2) + 1, C + 2 (j // 2) + 1) in which the cell
    (r, c) of every batch position sits at (r + i // 2 + 1,
    c + j // 2 + 1): one more cell before the grid than after it, and
    no batch axis padded.  Modes other than a constant need R and C
    not 0. *)
Theorem pad_boxsum_places_grid box i j data bs R C mode :
  py_index (atleast_1d box) 0 = Ok i ->
  py_index (atleast_1d box) (-1) = Ok j ->
  shape data = bs ++ [R; C] ->
  0 <= i -> 0 <= j ->
  extends_empty mode = true \/ (R <> 0 /\ C <> 0) ->
  exists P, pad_boxsum data box mode = Ok P /\
    shape P = bs ++ [R + 2 * (i / 2) + 1; C + 2 * (j / 2) + 1] /\
    forall b r c, in_bounds bs b -> 0 <= r < R -> 0 <= c < C ->
      item P (b ++ [r + i / 2 + 1; c + j / 2 + 1]) = item data (b ++ [r; c]).
Proof.
  intros Hi Hj Hsh Hi0 Hj0 Hne.
  destruct (pad_boxsum_batched box i j Hi Hj data bs R C mode Hsh Hi0 Hj0 Hne)
    as (P & HP & HshP & HitP).
  exists P. split; [done|]. split.
  - rewrite HshP. f_equal. f_equal; [lia|f_equal; lia].
  - intros b r c Hb Hr Hc. rewrite <- HitP by done. do 2 f_equal.
    f_equal; [lia|f_equal; lia].
Qed.

Lemma pad_boxsum_places_grid_witness :
  exists P, pad_boxsum stack223 (Ints [3; 4]) mode_reflect = Ok P /\
    shape P = [2; 5; 8] /\
    forall b r c, in_bounds [2] b -> 0 <= r < 2 -> 0 <= c < 3 ->
      item P (b ++ [r + 3 / 2 + 1; c + 4 / 2 + 1]) = item stack223 (b ++ [r; c]).
Proof.
  apply (pad_boxsum_places_grid (Ints [3; 4]) 3 4 stack223 [2] 2 3 mode_reflect);
    (reflexivity || lia).
Defined.

(** X3. With pad options, box extents i, j >= 1 and a grid of shape
    (..., R, C) with R, C >= 1, [boxsum] succeeds and returns shape
    (..., R + 1 - i mod 2, C + 1 - j mod 2): the shape of the grid
    when both extents are odd, one more row for an even row extent and
    one more column for an even column extent. *)
Theorem boxsum_padded_shape box i j data cs mode bs R C :
  py_index (atleast_1d box) 0 = Ok i ->
  py_index (atleast_1d box) (-1) = Ok j ->
  shape data = bs ++ [R; C] ->
  1 <= i -> 1 <= j -> 1 <= R -> 1 <= C ->
  exists res, boxsum data box cs (Some mode) = Ok res /\
    shape res = bs ++ [R + (1 - i mod 2); C + (1 - j mod 2)] /\
    (i mod 2 = 1 -> j mod 2 = 1 -> shape res = shape data).
Proof.
  intros Hi Hj Hsh Hi1 Hj1 HR HC.
  destruct (boxsum_padded_batched box i j data cs mode bs R C)
    as (P & res & _ & Hres & Hshres & _); try done.
  exists res. split; [done|]. split; [done|].
  intros Hio Hjo. rewrite Hshres, Hsh, Hio, Hjo. f_equal.
  f_equal; [lia|f_equal; lia].
Qed.

Lemma boxsum_padded_shape_witness :
  exists res, boxsum stack223 (Ints [3; 4]) false (Some mode_edge) = Ok res /\
    shape res = [2; 2 + (1 - 3 mod 2); 3 + (1 - 4 mod 2)] /\
    (3 mod 2 = 1 -> 4 mod 2 = 1 -> shape res = shape stack223).
Proof.
  apply (boxsum_padded_shape (Ints [3; 4]) 3 4 stack223 false mode_edge [2] 2 3);
    (reflexivity || lia).
Defined.

(** X4. In exact arithmetic (cells as unbounded integers: no
    rounding, NaN, infinity or wrap-around), with pad options and
    accumulation, an output cell whose window lies inside the grid
    holds the brute-force total of the i by j window of the grid
    itself that starts i // 2 rows above and j // 2 columns left of
    the cell (the window centred on the cell for odd extents),
    whatever the pad mode and for every batch position. *)
Theorem boxsum_padded_centred_window box i j data mode bs R C b r c :
  py_index (atleast_1d box) 0 = Ok i ->
  py_index (atleast_1d box) (-1) = Ok j ->
  shape data = bs ++ [R; C] ->
  1 <= i -> 1 <= j ->
  in_bounds bs b ->
  0 <= r - i / 2 -> r - i / 2 + i <= R ->
  0 <= c - j / 2 -> c - j / 2 + j <= C ->
  exists res, boxsum data box true (Some mode) = Ok res /\
    item res (b ++ [r; c]) = window_sum data b (r - i / 2) (c - j / 2) i j.
Proof.
  intros Hi Hj Hsh Hi1 Hj1 Hb Hr0 Hr1 Hc0 Hc1.
  pose proof (Z.div_mod i 2). pose proof (Z.div_mod j 2).
  pose proof (Z.mod_pos_bound i 2). pose proof (Z.mod_pos_bound j 2).
  destruct (boxsum_padded_batched box i j data true mode bs R C)
    as (P & res & _ & Hres & _ & HitP & Hit); try done; try lia.
  exists res. split; [done|]. rewrite Hit by (done || lia).
  unfold box_value, window_sum. apply sum_upto_ext. intros a Ha.
  apply sum_upto_ext. intros d Hd.
  rewrite <- HitP by (done || lia).
  do 2 f_equal. f_equal; [lia|f_equal; lia].
Qed.

Lemma boxsum_padded_centred_window_witness :
  exists res, boxsum stack245 (Int 3) true (Some mode_edge) = Ok res /\
    item res ([1] ++ [2; 3]) = window_sum stack245 [1] (2 - 3 / 2) (3 - 3 / 2) 3 3.
Proof.
  apply (boxsum_padded_centred_window (Int 3) 3 3 stack245 mode_edge [2] 4 5);
    try reflexivity; try lia; try (by vm_compute).
  repeat constructor; lia.
Defined.

(** X5. Padding with a constant v, in exact arithmetic (cells and v
    as unbounded integers: no rounding, NaN, infinity or wrap-around):
    on a 2-D grid with R, C >= 1 and box extents i, j >= 1, every
    output cell (r, c) of [boxsum] is the total of the i by j window
    starting at (r - i // 2, c - j // 2) of the grid read as v outside
    its bounds.  With v = 0 a border cell so holds the sum of the part
    of its window inside the grid. *)
Theorem boxsum_constant_padding box i j G v R C :
  py_index (atleast_1d box) 0 = Ok i ->
  py_index (atleast_1d box) (-1) = Ok j ->
  shape G = [R; C] ->
  1 <= i -> 1 <= j -> 1 <= R -> 1 <= C ->
  exists res, boxsum G box true (Some (mode_constant v)) = Ok res /\
    forall r c, in_bounds (shape res) [r; c] ->
      item res [r; c]
      = window_total (extend_constant v G R C) (r - i / 2) (c - j / 2) i j.
Proof.
  intros Hi Hj Hsh Hi1 Hj1 HR HC. rewrite boxsum_padded.
  destruct (pad_boxsum_2d box i j Hi Hj G R C (mode_constant v) Hsh)
    as (P & -> & HshP & HitP); [lia|lia|by left|]. simpl.
  pose proof (box_pad_fits i R). pose proof (box_pad_fits j C).
  destruct (boxsum_windows_2d box i j Hi Hj P _ _ HshP)
    as (res & -> & Hshres & Hit); [lia|lia|].
  exists res. split; [done|]. intros r c Hrc. rewrite Hshres in Hrc.
  inversion Hrc as [|? ? ? ? Hr Hrc']; subst.
  inversion Hrc' as [|? ? ? ? Hc _]; subst.
  rewrite Hit by done. unfold window_sum, window_total.
  apply sum_upto_ext. intros a Ha. apply sum_upto_ext. intros d Hd.
  simpl. rewrite HitP. unfold pad_lane, extend_constant. simpl.
  replace (c + 1 + d - (j / 2 + 1)) with (c - j / 2 + d) by lia.
  replace (r + 1 + a - (i / 2 + 1)) with (r - i / 2 + a) by lia.
  zbool; reflexivity.
Qed.

Lemma boxsum_constant_padding_witness :
  exists res, boxsum ones45 (Int 3) true (Some (mode_constant 0)) = Ok res /\
    forall r c, in_bounds (shape res) [r; c] ->
      item res [r; c]
      = window_total (extend_constant 0 ones45 4 5) (r - 3 / 2) (c - 3 / 2) 3 3.
Proof.
  apply (boxsum_constant_padding (Int 3) 3 3 ones45 0 4 5); (reflexivity || lia).
Defined.

(** X6. Padding by edge replication, in exact arithmetic (cells as
    unbounded integers: no rounding, NaN, infinity or wrap-around): on
    a 2-D grid with R, C >= 1 and box extents i, j >= 1, every output
    cell (r, c) of [boxsum] is the total of the i by j window starting
    at (r - i // 2, c - j // 2) of the grid read at the nearest grid
    cell outside its bounds. *)
Theorem boxsum_edge_padding box i j G R C :
  py_index (atleast_1d box) 0 = Ok i ->
  py_index (atleast_1d box) (-1) = Ok j ->
  shape G = [R; C] ->
  1 <= i -> 1 <= j -> 1 <= R -> 1 <= C ->
  exists res, boxsum G box true (Some mode_edge) = Ok res /\
    forall r c, in_bounds (shape res) [r; c] ->
      item res [r; c]
      = window_total (extend_edge G R C) (r - i / 2) (c - j / 2) i j.
Proof.
  intros Hi Hj Hsh Hi1 Hj1 HR HC. rewrite boxsum_padded.
  destruct (pad_boxsum_2d box i j Hi Hj G R C mode_edge Hsh)
    as (P & -> & HshP & HitP); [lia|lia|right; lia|]. simpl.
  pose proof (box_pad_fits i R). pose proof (box_pad_fits j C).
  destruct (boxsum_windows_2d box i j Hi Hj P _ _ HshP)
    as (res & -> & Hshres & Hit); [lia|lia|].
  exists res. split; [done|]. intros r c Hrc. rewrite Hshres in Hrc.
  inversion Hrc as [|? ? ? ? Hr Hrc']; subst.
  inversion Hrc' as [|? ? ? ? Hc _]; subst.
  rewrite Hit by done. unfold window_sum, window_total.
  apply sum_upto_ext. intros a Ha. apply sum_upto_ext. intros d Hd.
  simpl. rewrite HitP. unfold pad_lane, extend_edge, clamp. simpl.
  replace (c + 1 + d - (j / 2 + 1)) with (c - j / 2 + d) by lia.
  replace (r + 1 + a - (i / 2 + 1)) with (r - i / 2 + a) by lia.
  zbool; do 2 f_equal; f_equal; try lia; f_equal; lia.
Qed.

Lemma boxsum_edge_padding_witness :
  exists res, boxsum grid23 (Ints [3; 2]) true (Some mode_edge) = Ok res /\
    forall r c, in_bounds (shape res) [r; c] ->
      item res [r; c]
      = window_total (extend_edge grid23 2 3) (r - 3 / 2) (c - 2 / 2) 3 2.
Proof.
  apply (boxsum_edge_padding (Ints [3; 2]) 3 2 grid23 2 3); (reflexivity || lia).
Defined.

(** X7. The example of the docstring for any constant, in exact
    arithmetic (cells as unbounded integers: no rounding of float64
    and no wrap-around of int64 totals): on a grid of shape
    (..., R, C) whose cells all hold v, [boxsum] without padding and
    with a box of extents 0 <= i <= R, 0 <= j <= C gives i * j * v at
    every output cell. *)
Theorem boxsum_constant_grid box i j data v bs R C :
  py_index (atleast_1d box) 0 = Ok i ->
  py_index (atleast_1d box) (-1) = Ok j ->
  shape data = bs ++ [R; C] ->
  (forall idx, in_bounds (shape data) idx -> item data idx = v) ->
  0 <= i <= R -> 0 <= j <= C ->
  exists res, boxsum data box true None = Ok res /\
    shape res = bs ++ [R - i; C - j] /\
    forall idx, in_bounds (shape res) idx -> item res idx = i * j * v.
Proof.
  intros Hi Hj Hsh Hv HiR HjC.
  destruct (boxsum_windows box i j Hi Hj data bs R C Hsh HiR HjC)
    as (res & Hres & Hshres & Hit).
  exists res. split; [done|]. split; [done|].
  intros idx Hidx. rewrite Hshres in Hidx.
  apply in_bounds_batched in Hidx as (b & r & c & -> & Hb & Hr & Hc).
  rewrite Hit by done. unfold window_sum.
  rewrite (sum_upto_ext _ _ (fun _ => j * v)).
  - rewrite sum_upto_const, Z2Nat.id by lia. ring.
  - intros a Ha. rewrite (sum_upto_ext _ _ (fun _ => v)).
    + by rewrite sum_upto_const, Z2Nat.id by lia.
    + intros d Hd. apply Hv. rewrite Hsh.
      apply in_bounds_app; [done|]. apply in_bounds_pair; lia.
Qed.

Lemma boxsum_constant_grid_witness :
  exists res, boxsum (np_full [5; 5] 1) (Int 3) true None = Ok res /\
    shape res = [] ++ [5 - 3; 5 - 3] /\
    forall idx, in_bounds (shape res) idx -> item res idx = 3 * 3 * 1.
Proof.
  apply (boxsum_constant_grid (Int 3) 3 3 (np_full [5; 5] 1) 1 [] 5 5);
    (reflexivity || lia).
Defined.

(** X8. A box with an extent of 0 sums nothing, in exact arithmetic
    (cells as unbounded integers; a NaN or an infinity in the table
    would come back as NaN): when i = 0 or j = 0 (and the other extent
    fits), [boxsum] without padding returns zeros of shape
    (..., R - i, C - j), with or without accumulation and for every
    grid of such cells. *)
Theorem boxsum_empty_box box i j data cs bs R C :
  py_index (atleast_1d box) 0 = Ok i ->
  py_index (atleast_1d box) (-1) = Ok j ->
  shape data = bs ++ [R; C] ->
  0 <= i <= R -> 0 <= j <= C -> i = 0 \/ j = 0 ->
  exists res, boxsum data box cs None = Ok res /\
    shape res = bs ++ [R - i; C - j] /\
    forall idx, in_bounds (shape res) idx -> item res idx = 0.
Proof.
  intros Hi Hj Hsh HiR HjC H0.
  destruct (boxsum_unpadded box i j Hi Hj cs data bs R C Hsh HiR HjC)
    as (res & Hres & Hshres & Hit).
  exists res. split; [done|]. split; [done|].
  intros idx Hidx. rewrite Hshres in Hidx.
  apply in_bounds_batched in Hidx as (b & r & c & -> & Hb & Hr & Hc).
  rewrite Hit by done. unfold box_value, window_sum. destruct cs.
  - destruct H0 as [-> | ->]; simpl; [done|]. apply sum_upto_zero.
  - destruct H0 as [-> | ->]; rewrite !Z.add_0_r; lia.
Qed.

Lemma boxsum_empty_box_witness :
  exists res, boxsum grid23 (Ints [0; 2]) true None = Ok res /\
    shape res = [] ++ [2 - 0; 3 - 2] /\
    forall idx, in_bounds (shape res) idx -> item res idx = 0.
Proof.
  apply (boxsum_empty_box (Ints [0; 2]) 0 2 grid23 true [] 2 3);
    (reflexivity || lia).
Defined.

(** X9. A negative box extent cannot be padded for: [pad_boxsum], and
    so [boxsum] with pad options, raises ValueError when [boxsize[0]]
    or [boxsize[-1]] is negative, whatever the data. *)
Theorem pad_boxsum_negative_box box i j data cs mode :
  py_index (atleast_1d box) 0 = Ok i ->
  py_index (atleast_1d box) (-1) = Ok j ->
  i < 0 \/ j < 0 ->
  pad_boxsum data box mode = Raise ValueError /\
  boxsum data box cs (Some mode) = Raise ValueError.
Proof.
  intros Hi Hj Hneg.
  assert (Hpad : pad_boxsum data box mode = Raise ValueError).
  { unfold pad_boxsum. rewrite Hi, Hj. simpl. unfold np_pad, as_pairs.
    set (w := py_repeat (0, 0) (Z.of_nat (ndim data) - 2)
              ++ [(i / 2 + 1, i / 2); (j / 2 + 1, j / 2)]).
    assert (Hex : existsb (fun p => (fst p <? 0) || (snd p <? 0)) w = true).
    { subst w. rewrite existsb_app. apply orb_true_iff. right. simpl.
      assert (i / 2 < 0 \/ j / 2 < 0).
      { destruct Hneg; [left|right]; apply Z.div_lt_upper_bound; lia. }
      zbool. }
    destruct (decide _) as [_|_]; simpl.
    - by rewrite Hex.
    - subst w. unfold py_repeat.
      destruct (replicate _ _) as [|p [|q l]]; done. }
  split; [done|]. by rewrite boxsum_padded, Hpad.
Qed.

Lemma pad_boxsum_negative_box_witness :
  pad_boxsum ones45 (Int (-1)) (mode_constant 0) = Raise ValueError /\
  boxsum ones45 (Int (-1)) true (Some (mode_constant 0)) = Raise ValueError.
Proof.
  apply (pad_boxsum_negative_box (Int (-1)) (-1) (-1)); [reflexivity..|lia].
Defined.

(** ** Fresh contiguous arrays *)

Lemma c_strides_cons s d sh :
  c_strides s (d :: sh) = (s * prod sh) :: c_strides s sh.
Proof.
  unfold c_strides. simpl.
  assert (H : fst (foldr (fun d '(s, acc) => (s * d, s :: acc)) (s, []) sh)
              = s * prod sh).
  { induction sh as [|d' sh IH]; simpl; [lia|].
    destruct (foldr _ _ sh) as [s' acc]. simpl in *. rewrite IH.
    unfold prod. simpl. lia. }
  destruct (foldr _ _ sh) as [s' acc]. simpl in *. by rewrite H.
Qed.

Lemma dot_cons t idx s str : dot (t :: idx) (s :: str) = t * s + dot idx str.
Proof. reflexivity. Qed.

Lemma indices_in_bounds sh idx : idx ∈ indices sh <-> in_bounds sh idx.
Proof.
  revert idx. induction sh as [|d sh IH]; intros idx; simpl.
  - rewrite list_elem_of_singleton. split.
    + intros ->. constructor.
    + intros H. by inversion H.
  - rewrite list_elem_of_bind. split.
    + intros (t & Hin & Ht). apply elem_of_seqZ in Ht.
      apply list_elem_of_fmap in Hin as (idx' & -> & Hidx').
      constructor; [lia|]. by apply IH.
    + intros H. inversion H as [|? t ? idx' Ht Hidx']; subst.
      exists t. split.
      * apply list_elem_of_fmap. exists idx'. split; [done|]. by apply IH.
      * apply elem_of_seqZ. lia.
Qed.

(** Row-major addressing: inside the block, and one address per index. *)
Lemma contiguous_bounds s sh idx :
  0 < s -> in_bounds sh idx ->
  0 <= dot idx (c_strides s sh) /\ dot idx (c_strides s sh) + s <= s * prod sh.
Proof.
  intros Hs. induction 1 as [|d t sh idx Hdt _ IH].
  - unfold dot, prod. simpl. lia.
  - rewrite c_strides_cons, dot_cons. unfold prod in *. simpl. nia.
Qed.

Lemma contiguous_injective s sh idx idx' :
  0 < s -> in_bounds sh idx -> in_bounds sh idx' ->
  dot idx (c_strides s sh) = dot idx' (c_strides s sh) -> idx = idx'.
Proof.
  intros Hs H. revert idx'. induction H as [|d t sh idx Hdt Hin IH];
    intros idx' H' Heq.
  - by inversion H'.
  - inversion H' as [|? t' ? idx'' Hdt' Hin']; subst.
    rewrite c_strides_cons, !dot_cons in Heq.
    pose proof (contiguous_bounds s sh idx Hs Hin).
    pose proof (contiguous_bounds s sh idx'' Hs Hin').
    assert (t = t') by nia. subst t'.
    f_equal. apply IH; [done|lia].
Qed.

Lemma fold_insert_lookup (A V : list Z -> Z) (m0 : gmap Z Z) L idx0 :
  idx0 ∈ L ->
  (forall idx, idx ∈ L -> A idx = A idx0 -> idx = idx0) ->
  foldr (fun idx m => <[A idx := V idx]> m) m0 L !! A idx0 = Some (V idx0).
Proof.
  induction L as [|idx L IH]; intros Hin Hinj; [by apply elem_of_nil in Hin|].
  simpl. destruct (decide (A idx = A idx0)) as [Heq|Hne].
  - rewrite Heq, lookup_insert_eq. f_equal. f_equal. apply Hinj; [by left|done].
  - rewrite lookup_insert_ne by done. apply IH.
    + apply elem_of_cons in Hin as [->|]; done.
    + intros idx' Hin'. apply Hinj. by right.
Qed.

Lemma fold_insert_frame (A V : list Z -> Z) (m0 : gmap Z Z) L k :
  (forall idx, idx ∈ L -> A idx <> k) ->
  foldr (fun idx m => <[A idx := V idx]> m) m0 L !! k = m0 !! k.
Proof.
  induction L as [|idx L IH]; intros Hne; simpl; [done|].
  rewrite lookup_insert_ne by (apply Hne; by left).
  apply IH. intros idx' Hin'. apply Hne. by right.
Qed.

Lemma alloc_header st a :
  snd (alloc st a)
  = {| base := brk st; dims := shape a;
       strides := c_strides itemsize (shape a); writeable := true |}.
Proof. reflexivity. Qed.

(** A fresh array holds the value it was made from, and making it
    leaves every address below the break as it was. *)
Lemma alloc_lookup st a idx :
  in_bounds (shape a) idx ->
  cells (fst (alloc st a)) !! address (snd (alloc st a)) idx = Some (item a idx).
Proof.
  intros Hidx. unfold alloc. simpl.
  set (h := {| base := brk st; dims := shape a;
               strides := c_strides itemsize (shape a); writeable := true |}).
  apply (fold_insert_lookup (address h) (item a)).
  - by apply indices_in_bounds.
  - intros idx' Hin' Heq. apply indices_in_bounds in Hin'.
    unfold address in Heq. simpl in Heq.
    apply (contiguous_injective itemsize (shape a)); [done|done|done|lia].
Qed.

Lemma alloc_frame st a k :
  k < brk st -> cells (fst (alloc st a)) !! k = cells st !! k.
Proof.
  intros Hk. unfold alloc. simpl.
  apply fold_insert_frame. intros idx Hin. apply indices_in_bounds in Hin.
  unfold address. simpl.
  pose proof (contiguous_bounds itemsize (shape a) idx eq_refl Hin). lia.
Qed.

Lemma alloc_inside st a idx :
  in_bounds (shape a) idx ->
  brk st <= address (snd (alloc st a)) idx < brk (fst (alloc st a)).
Proof.
  intros Hin. unfold alloc, address. simpl.
  pose proof (contiguous_bounds itemsize (shape a) idx eq_refl Hin).
  fold (prod (shape a)). unfold itemsize in *. lia.
Qed.

Lemma norm_positions_ok sh idx i :
  norm_positions sh idx = Ok i -> in_bounds sh i.
Proof.
  revert idx i. induction sh as [|d sh IH]; intros [|t idx] i; simpl; try done.
  - intros [= <-]. constructor.
  - unfold norm_position.
    destruct ((0 <=? t) && (t <? d)) eqn:E1; simpl.
    + destruct (norm_positions sh idx) as [r|] eqn:E; simpl; [|done].
      intros [= <-]. constructor; [lia|]. by apply (IH idx).
    + destruct ((- d <=? t) && (t <? 0)) eqn:E2; simpl; [|done].
      destruct (norm_positions sh idx) as [r|] eqn:E; simpl; [|done].
      intros [= <-]. constructor; [lia|]. by apply (IH idx).
Qed.

(** ** [pad_and_roll] stage by stage *)

Lemma padded_dims_window sp W :
  padded_dims sp ((fun d => (d / 2, d / 2)) <$> W) = padded_axes sp W.
Proof.
  unfold padded_dims, padded_axes. revert W.
  induction sp as [|g sp IH]; intros [|w W]; simpl; try done. by rewrite IH.
Qed.

Lemma shifted_window pos W :
  shifted pos ((fun d => (d / 2, d / 2)) <$> W) = zip_with Z.add pos (centre W).
Proof.
  unfold shifted, centre. revert W.
  induction pos as [|t pos IH]; intros [|w W]; simpl; try done.
  rewrite IH. f_equal. lia.
Qed.

Lemma window_dims_grown sp W : window_dims (padded_axes sp W) W = grown sp W.
Proof.
  unfold window_dims, padded_axes, grown. revert W.
  induction sp as [|g sp IH]; intros [|w W]; simpl; try done.
  rewrite IH. f_equal. pose proof (Z.div_mod w 2). lia.
Qed.

Lemma padded_axes_fit sp W :
  length sp = length W ->
  Forall (fun g => 0 < g) sp ->
  Forall2 (fun g w => w <= g) (padded_axes sp W) W.
Proof.
  unfold padded_axes. intros Hlen Hsp. revert W Hlen.
  induction Hsp as [|g sp Hg _ IH]; intros [|w W] Hlen; simpl in *; try done.
  constructor; [|apply IH; lia].
  pose proof (Z.div_mod w 2). pose proof (Z.mod_pos_bound w 2). lia.
Qed.

Lemma in_bounds_grown sp W pos :
  length sp = length W -> in_bounds sp pos -> in_bounds (grown sp W) pos.
Proof.
  unfold grown. intros Hlen Hin. revert W Hlen.
  induction Hin as [|g t sp pos Hgt _ IH]; intros [|w W] Hlen;
    simpl in *; try done.
  - constructor.
  - constructor; [|apply IH; lia]. pose proof (Z.mod_pos_bound w 2). lia.
Qed.

Lemma in_bounds_centre W : Forall (fun w => 0 < w) W -> in_bounds W (centre W).
Proof.
  unfold centre. induction 1 as [|w W Hw _ IH]; simpl; constructor; [|done].
  split; [apply Z.div_pos; lia|apply Z.div_lt_upper_bound; lia].
Qed.

Lemma pad_and_roll_inv st h W kw kwargs st' v :
  pad_and_roll st h W kw kwargs = (st', Ok v) ->
  exists P,
    np_pad (load st h)
      (py_repeat (0, 0) (Z.of_nat (length (dims h)) - Z.of_nat (length W))
       ++ ((fun d => (d / 2, d / 2)) <$> W))
      (default (mode_constant 0) kwargs) = Ok P /\
    st' = fst (alloc st P) /\
    rolling_window (snd (alloc st P)) W (default false kw) = Ok v.
Proof.
  unfold pad_and_roll, np_pad_strided.
  destruct (np_pad _ _ _) as [P|e]; [|done].
  destruct (alloc st P) as [s hh] eqn:E. intros [= <- Hv].
  exists P. by rewrite E.
Qed.

(** Padding, then the fresh copy, then the window view. *)
Lemma pad_and_roll_stages st h W kw kwargs bs sp :
  dims h = bs ++ sp ->
  length sp = length W ->
  (1 <= length W)%nat ->
  Forall (fun d => 0 < d) bs ->
  Forall (fun g => 0 < g) sp ->
  Forall (fun w => 0 < w) W ->
  exists P v,
    np_pad (load st h) (window_pad (length bs) W)
      (default (mode_constant 0) kwargs) = Ok P /\
    shape P = bs ++ padded_axes sp W /\
    (forall b pos, in_bounds bs b -> in_bounds sp pos ->
       item P (b ++ zip_with Z.add pos (centre W)) = item (load st h) (b ++ pos)) /\
    pad_and_roll st h W kw kwargs = (fst (alloc st P), Ok v) /\
    rolling_window (snd (alloc st P)) W (default false kw) = Ok v /\
    dims v = bs ++ grown sp W ++ W.
Proof.
  intros Hd Hlen Hk Hbs Hsp HW.
  destruct (np_pad_any_axes (load st h) (window_pad (length bs) W)
              (default (mode_constant 0) kwargs))
    as (P & HP & HshP & HitP).
  - unfold ndim, window_pad. simpl.
    rewrite Hd, !length_app, length_replicate, length_fmap. lia.
  - apply Forall_app. split.
    + apply Forall_forall. intros p Hp. apply elem_of_replicate in Hp as [-> _].
      simpl. lia.
    + apply Forall_fmap. eapply Forall_impl; [exact HW|].
      intros w Hw. simpl in *. split; apply Z.div_pos; lia.
  - simpl. rewrite Hd. apply can_extend_batched.
    + eapply Forall_impl; [exact Hsp|]. intros g Hg. simpl in Hg. lia.
    + by rewrite length_fmap.
  - simpl in HshP. rewrite Hd in HshP. unfold window_pad in HshP.
    rewrite padded_dims_app, padded_dims_zero, padded_dims_window in HshP
      by by rewrite length_replicate.
    destruct (rolling_window_batched (snd (alloc st P)) W (default false kw)
                bs (padded_axes sp W))
      as (v & Hv & Hdv); try done.
    + unfold padded_axes. rewrite length_zip_with. lia.
    + rewrite alloc_header. simpl. apply c_strides_length.
    + by apply padded_axes_fit.
    + exists P, v. split; [done|]. split; [done|]. split; [|split; [|split]].
      * intros b pos Hb Hpos. rewrite <- (HitP (b ++ pos)).
        -- unfold window_pad. rewrite shifted_app
             by (rewrite length_replicate; by apply in_bounds_length).
           rewrite shifted_zero by by apply in_bounds_length.
           by rewrite shifted_window.
        -- simpl. rewrite Hd. by apply in_bounds_app.
      * unfold pad_and_roll, np_pad_strided.
        replace (py_repeat (0, 0)
                   (Z.of_nat (length (dims h)) - Z.of_nat (length W)))
          with (replicate (length bs) (0, 0)).
        2:{ unfold py_repeat. f_equal. rewrite Hd, length_app. lia. }
        fold (window_pad (length bs) W). rewrite HP.
        destruct (alloc st P) as [s hh] eqn:E. simpl in Hv. by rewrite Hv.
      * done.
      * by rewrite Hdv, window_dims_grown.
Qed.

(** ** Further properties of [pad_and_roll] *)

Lemma alloc_strides st a :
  length (strides (snd (alloc st a))) = length (dims (snd (alloc st a))).
Proof. rewrite alloc_header. simpl. apply c_strides_length. Qed.

Lemma grown_odd sp W :
  length sp = length W -> Forall (fun w => w mod 2 = 1) W -> grown sp W = sp.
Proof.
  unfold grown. intros Hlen HW. revert sp Hlen.
  induction HW as [|w W Hw _ IH]; intros [|g sp] Hlen; simpl in *; try done.
  rewrite IH by lia. f_equal. lia.
Qed.

Lemma pad_fold_rank mode l :
  forall a, length (shape (foldl (pad_axis mode) a l)) = length (shape a).
Proof.
  induction l as [|[k [b e]] l IH]; intros a; simpl; [done|].
  rewrite IH. simpl. by rewrite length_insert.
Qed.

Lemma np_pad_rank a w mode P : np_pad a w mode = Ok P -> ndim P = ndim a.
Proof.
  unfold np_pad. destruct (as_pairs _ _) as [w'|]; simpl; [|done].
  destruct (existsb _ w'); [done|].
  destruct (negb _ && _); [done|].
  intros [= <-]. apply pad_fold_rank.
Qed.

Lemma rolling_window_raises h W wr :
  (length (dims h) < length W)%nat \/ Exists (fun w => w <= 0) W ->
  exists e, rolling_window h W wr = Raise e.
Proof.
  intros [Hk|Hex]; unfold rolling_window.
  - destruct (Z.leb_spec (Z.of_nat (length W)) (Z.of_nat (length (dims h))));
      [lia|]. simpl. eauto.
  - destruct (Z.of_nat (length W) <=? Z.of_nat (length (dims h))); simpl; [|eauto].
    assert (HW : forallb (fun d => 0 <? d) W = false).
    { induction Hex as [w W Hw|w W _ IH]; simpl.
      - destruct (Z.ltb_spec 0 w); [lia|done].
      - by rewrite IH, andb_false_r. }
    rewrite !forallb_app, HW, !andb_false_r. simpl. eauto.
Qed.

(** X10. [pad_and_roll] on an array of shape bs + sp, every axis of
    positive length, with a window shape W of len(sp) >= 1 positive
    extents: the view has shape
    bs + (g + 1 - w % 2 for g, w in zip(sp, W)) + W, whatever the pad
    mode, and is writeable only when asked.  It has the shape of the
    input followed by W exactly when every window extent is odd; each
    even extent makes its axis one position longer. *)
Theorem pad_and_roll_shape st h W kw kwargs bs sp :
  dims h = bs ++ sp ->
  length sp = length W ->
  (1 <= length W)%nat ->
  Forall (fun d => 0 < d) bs ->
  Forall (fun g => 0 < g) sp ->
  Forall (fun w => 0 < w) W ->
  exists v, snd (pad_and_roll st h W kw kwargs) = Ok v /\
    dims v = bs ++ zip_with (fun g w => g + (1 - w mod 2)) sp W ++ W /\
    writeable v = default false kw /\
    (Forall (fun w => w mod 2 = 1) W -> dims v = dims h ++ W).
Proof.
  intros Hd Hlen Hk Hbs Hsp HW.
  destruct (pad_and_roll_stages st h W kw kwargs bs sp)
    as (P & v & _ & _ & _ & Hpr & Hv & Hdv); try done.
  exists v. rewrite Hpr. split; [done|]. split; [done|]. split.
  - destruct (rolling_window_inv _ _ _ _ (alloc_strides st P) Hv)
      as (_ & _ & _ & _ & _ & _ & _ & _ & _ & _ & _ & _ & Hw & _).
    by rewrite Hw.
  - intros Hodd. rewrite Hdv, Hd, grown_odd by done. by rewrite <- app_assoc.
Qed.

Lemma pad_and_roll_shape_witness :
  exists v, snd (pad_and_roll (fst (fresh stack245)) (snd (fresh stack245))
                   [3; 2] None (Some mode_edge)) = Ok v /\
    dims v = [2] ++ zip_with (fun g w => g + (1 - w mod 2)) [4; 5] [3; 2] ++ [3; 2] /\
    writeable v = false /\
    (Forall (fun w => w mod 2 = 1) [3; 2] ->
     dims v = dims (snd (fresh stack245)) ++ [3; 2]).
Proof.
  apply (pad_and_roll_shape _ (snd (fresh stack245)) [3; 2] None _ [2] [4; 5]);
    try reflexivity; try (simpl; lia); repeat constructor.
Defined.

(** X11. [pad_and_roll] raises, and returns no view, when the window
    shape has more axes than the array or some window extent is zero
    or negative. *)
Theorem pad_and_roll_rejects st h W kw kwargs :
  (length (dims h) < length W)%nat \/ Exists (fun w => w <= 0) W ->
  exists e, snd (pad_and_roll st h W kw kwargs) = Raise e.
Proof.
  intros Hbad. unfold pad_and_roll, np_pad_strided.
  destruct (np_pad _ _ _) as [P|e] eqn:HP; [|simpl; eauto].
  apply np_pad_rank in HP. unfold ndim in HP. simpl in HP.
  destruct (alloc st P) as [s hh] eqn:E. simpl.
  apply rolling_window_raises.
  destruct Hbad as [Hk|Hex]; [left|by right].
  replace hh with (snd (alloc st P)) by by rewrite E.
  rewrite alloc_header. simpl. lia.
Qed.

Lemma pad_and_roll_rejects_witness :
  exists e, snd (pad_and_roll (fst (fresh ones45)) (snd (fresh ones45))
                   [3; 0] None None) = Raise e.
Proof.
  apply pad_and_roll_rejects. right. apply Exists_cons_tl, Exists_cons_hd. lia.
Defined.

(** X12. The centre of every window is the point itself: under the
    conditions of X10, for every position (b, pos) of the input array
    the returned view holds at (b, pos, (w // 2 for w in W)) the
    input cell at (b, pos), whatever the pad mode. *)
Theorem pad_and_roll_window_centre st h W kw kwargs bs sp :
  dims h = bs ++ sp ->
  length sp = length W ->
  (1 <= length W)%nat ->
  Forall (fun d => 0 < d) bs ->
  Forall (fun g => 0 < g) sp ->
  Forall (fun w => 0 < w) W ->
  exists st' v, pad_and_roll st h W kw kwargs = (st', Ok v) /\
    forall b pos, in_bounds bs b -> in_bounds sp pos ->
      getitem st' v (b ++ pos ++ ((fun w => w / 2) <$> W))
      = getitem st h (b ++ pos).
Proof.
  intros Hd Hlen Hk Hbs Hsp HW.
  destruct (pad_and_roll_stages st h W kw kwargs bs sp)
    as (P & v & _ & HshP & HitP & Hpr & Hv & Hdv); try done.
  exists (fst (alloc st P)), v. split; [done|].
  intros b pos Hb Hpos. fold (centre W).
  assert (Hin : in_bounds (dims v) (b ++ pos ++ centre W)).
  { rewrite Hdv. apply in_bounds_app; [done|]. apply in_bounds_app.
    - by apply in_bounds_grown.
    - by apply in_bounds_centre. }
  destruct (window_cell _ _ _ _ _ (alloc_strides st P) Hv Hin) as [Ha Hsrc].
  rewrite source_index_parts in Ha, Hsrc.
  2,3,4,5: (apply in_bounds_length in Hpos; unfold centre;
            rewrite ?length_fmap; lia).
  unfold getitem.
  rewrite (norm_positions_in_bounds _ _ Hin).
  rewrite norm_positions_in_bounds by (rewrite Hd; by apply in_bounds_app).
  simpl. rewrite Ha, alloc_lookup by done. simpl.
  by rewrite HitP.
Qed.

Lemma pad_and_roll_window_centre_witness :
  exists st' v,
    pad_and_roll (fst (fresh stack245)) (snd (fresh stack245))
      [3; 2] None (Some mode_reflect) = (st', Ok v) /\
    forall b pos, in_bounds [2] b -> in_bounds [4; 5] pos ->
      getitem st' v (b ++ pos ++ ((fun w => w / 2) <$> [3; 2]))
      = getitem (fst (fresh stack245)) (snd (fresh stack245)) (b ++ pos).
Proof.
  apply (pad_and_roll_window_centre _ (snd (fresh stack245)) [3; 2] None _
           [2] [4; 5]);
    try reflexivity; try (simpl; lia); repeat constructor.
Defined.

(** X13. The view returned by [pad_and_roll] with writeable=True is a
    view of the padded copy, not of the input array: under the
    conditions of X10, for an input array that lies below the break
    of the store, every assignment through the view succeeds and is
    read back through the view, and every cell of the input array
    reads as before the call. *)
Theorem pad_and_roll_view_is_a_copy st h W kwargs bs sp :
  dims h = bs ++ sp ->
  length sp = length W ->
  (1 <= length W)%nat ->
  Forall (fun d => 0 < d) bs ->
  Forall (fun g => 0 < g) sp ->
  Forall (fun w => 0 < w) W ->
  (forall i, in_bounds (dims h) i -> address h i < brk st) ->
  exists st1 v, pad_and_roll st h W (Some true) kwargs = (st1, Ok v) /\
    forall idx x, in_bounds (dims v) idx ->
      exists st2, setitem st1 v idx x = (st2, Ok tt) /\
        getitem st2 v idx = Ok x /\
        forall i, in_bounds (dims h) i -> getitem st2 h i = getitem st h i.
Proof.
  intros Hd Hlen Hk Hbs Hsp HW Hbelow.
  destruct (pad_and_roll_stages st h W (Some true) kwargs bs sp)
    as (P & v & _ & HshP & _ & Hpr & Hv & Hdv); try done.
  exists (fst (alloc st P)), v. split; [done|].
  intros idx x Hin.
  destruct (rolling_window_inv _ _ _ _ (alloc_strides st P) Hv)
    as (_ & _ & _ & _ & _ & _ & _ & _ & _ & _ & _ & _ & Hw & _).
  destruct (window_cell _ _ _ _ _ (alloc_strides st P) Hv Hin) as [Ha Hsrc].
  pose proof (alloc_inside st P _ Hsrc) as Hhigh.
  pose proof (alloc_frame st P) as Hframe.
  rewrite <- Ha in Hhigh. clear Ha Hsrc Hpr Hv.
  set (st1 := fst (alloc st P)) in *. clearbody st1.
  unfold setitem. rewrite Hw. simpl.
  rewrite (norm_positions_in_bounds _ _ Hin).
  eexists. split; [reflexivity|]. unfold getitem. split.
  - rewrite (norm_positions_in_bounds _ _ Hin). simpl.
    by rewrite lookup_insert_eq.
  - intros i Hi. rewrite (norm_positions_in_bounds _ _ Hi). simpl.
    pose proof (Hbelow i Hi) as Hlow.
    rewrite lookup_insert_ne by lia.
    by rewrite Hframe.
Qed.

Lemma pad_and_roll_view_is_a_copy_witness :
  exists st1 v,
    pad_and_roll (fst (fresh ones45)) (snd (fresh ones45))
      [3; 3] (Some true) None = (st1, Ok v) /\
    forall idx x, in_bounds (dims v) idx ->
      exists st2, setitem st1 v idx x = (st2, Ok tt) /\
        getitem st2 v idx = Ok x /\
        forall i, in_bounds (dims (snd (fresh ones45))) i ->
          getitem st2 (snd (fresh ones45)) i
          = getitem (fst (fresh ones45)) (snd (fresh ones45)) i.
Proof.
  apply (pad_and_roll_view_is_a_copy _ (snd (fresh ones45)) [3; 3] None
           [] [4; 5]);
    try reflexivity; try (simpl; lia); try (repeat constructor; lia).
  intros i Hi. by apply alloc_inside.
Defined.

(** ** Window totals against box sums *)

Lemma constant_shift_invariant v : shift_invariant (mode_constant v).
Proof. intros b e n f t. reflexivity. Qed.

Lemma edge_shift_invariant : shift_invariant mode_edge.
Proof. intros b e n f t. simpl. do 3 f_equal. lia. Qed.

Lemma reflect_shift_invariant : shift_invariant mode_reflect.
Proof.
  intros b e n f t. simpl.
  replace (t + 1 - (b + 1)) with (t - b) by lia. done.
Qed.

Lemma pad_lane_shift mode b e n f t :
  shift_invariant mode ->
  pad_lane mode (b + 1) e n f (t + 1) = pad_lane mode b e n f t.
Proof.
  intros H. unfold pad_lane. rewrite H.
  replace (t + 1 - (b + 1)) with (t - b) by lia.
  zbool; reflexivity.
Qed.

(** X14. Box sums without padding are the window totals of
    [rolling_window], one row and one column further on: for an array
    of shape bs + (R, C) with batch axes of positive length and a box
    (i, j) with 1 <= i <= R and 1 <= j <= C, [rolling_window] gives a
    view with R - i + 1 by C - j + 1 windows, [boxsum] a result with
    R - i by C - j cells, and cell (b, r, c) of the result is the
    total of the window at (b, r + 1, c + 1); the windows of the first
    row and of the first column have no cell in the result. *)
Theorem rolling_window_totals_are_boxsum st h i j wr bs R C :
  dims h = bs ++ [R; C] ->
  length (strides h) = length (dims h) ->
  Forall (fun d => 0 < d) bs ->
  1 <= i <= R -> 1 <= j <= C ->
  exists v res,
    rolling_window h [i; j] wr = Ok v /\
    boxsum (load st h) (Ints [i; j]) true None = Ok res /\
    dims v = bs ++ [R - i + 1; C - j + 1; i; j] /\
    shape res = bs ++ [R - i; C - j] /\
    forall b r c, in_bounds bs b -> 0 <= r < R - i -> 0 <= c < C - j ->
      item res (b ++ [r; c]) = view_total (load st v) b (r + 1) (c + 1) i j.
Proof.
  intros Hd Hwf Hbs Hi Hj.
  destruct (rolling_window_batched h [i; j] wr bs [R; C])
    as (v & Hv & Hdv); try done.
  { simpl. lia. }
  { repeat constructor; lia. }
  { repeat constructor; lia. }
  destruct (boxsum_windows (Ints [i; j]) i j eq_refl eq_refl (load st h) bs R C)
    as (res & Hres & Hshres & Hit); [done|lia|lia|].
  exists v, res. repeat split; try done.
  intros b r c Hb Hr Hc. rewrite Hit by done.
  unfold window_sum, view_total.
  apply sum_upto_ext. intros a Ha. apply sum_upto_ext. intros d Hd'.
  unfold load. simpl. do 2 f_equal.
  symmetry.
  apply (window_address h [i; j] wr v Hwf Hv b [r + 1; c + 1] [a; d]);
    try done.
  rewrite Hd, length_app. apply in_bounds_length in Hb. simpl. lia.
Qed.

Lemma rolling_window_totals_are_boxsum_witness :
  exists v res,
    rolling_window (snd (fresh stack245)) [3; 2] false = Ok v /\
    boxsum (load (fst (fresh stack245)) (snd (fresh stack245)))
      (Ints [3; 2]) true None = Ok res /\
    dims v = [2] ++ [4 - 3 + 1; 5 - 2 + 1; 3; 2] /\
    shape res = [2] ++ [4 - 3; 5 - 2] /\
    forall b r c, in_bounds [2] b -> 0 <= r < 4 - 3 -> 0 <= c < 5 - 2 ->
      item res (b ++ [r; c])
      = view_total (load (fst (fresh stack245)) v) b (r + 1) (c + 1) 3 2.
Proof.
  apply (rolling_window_totals_are_boxsum (fst (fresh stack245))
           (snd (fresh stack245)) 3 2 false [2] 4 5);
    try reflexivity; try lia; repeat constructor.
Defined.

(** X15. With the same pad mode the two ways to neighbourhood totals
    agree: for a 2-D array with R, C >= 1, window extents i, j >= 1
    and a pad mode whose filler does not depend on the pad width
    (constant, edge and reflect are such modes), the view of
    [pad_and_roll] has the shape of the result of [boxsum] followed
    by (i, j), and every cell of the result of [boxsum] is the total
    of the window of the view at the same position.  Cells are exact
    integers. *)
Theorem pad_and_roll_totals_are_boxsum st h i j kw mode R C :
  dims h = [R; C] ->
  1 <= R -> 1 <= C -> 1 <= i -> 1 <= j ->
  shift_invariant mode ->
  exists st' v res,
    pad_and_roll st h [i; j] kw (Some mode) = (st', Ok v) /\
    boxsum (load st h) (Ints [i; j]) true (Some mode) = Ok res /\
    dims v = shape res ++ [i; j] /\
    forall r c, in_bounds (shape res) [r; c] ->
      item res [r; c] = view_total (load st' v) [] r c i j.
Proof.
  intros Hd HR HC Hi1 Hj1 Hinv.
  pose proof (Z.div_mod i 2). pose proof (Z.div_mod j 2).
  pose proof (Z.mod_pos_bound i 2). pose proof (Z.mod_pos_bound j 2).
  assert (0 <= i / 2) by (apply Z.div_pos; lia).
  assert (0 <= j / 2) by (apply Z.div_pos; lia).
  (* the box-sum side *)
  rewrite boxsum_padded.
  destruct (pad_boxsum_2d (Ints [i; j]) i j eq_refl eq_refl (load st h) R C mode)
    as (Pb & -> & HshPb & HitPb); [done|lia|lia|right; lia|]. simpl mbind.
  destruct (boxsum_windows_2d (Ints [i; j]) i j eq_refl eq_refl Pb _ _ HshPb)
    as (res & Hres & Hshres & Hit); [lia|lia|].
  (* the window side *)
  destruct (pad_and_roll_stages st h [i; j] kw (Some mode) [] [R; C])
    as (Pr & v & HPr & HshPr & _ & Hpr & Hv & Hdv); try done.
  { simpl. lia. }
  { repeat constructor; lia. }
  { repeat constructor; lia. }
  destruct (np_pad_2d (load st h) R C (i / 2) (i / 2) (j / 2) (j / 2) mode)
    as (Pr' & HPr' & _ & HitPr); [done|lia|lia|lia|lia|right; lia|].
  change (window_pad (length (@nil Z)) [i; j])
    with [(i / 2, i / 2); (j / 2, j / 2)] in HPr.
  simpl default in HPr. rewrite HPr' in HPr. injection HPr as ->.
  exists (fst (alloc st Pr)), v, res.
  split; [done|]. split; [done|]. split.
  - rewrite Hdv, Hshres. simpl. f_equal; [lia|f_equal; lia].
  - intros r c Hrc. rewrite Hshres in Hrc.
    inversion Hrc as [|? ? ? ? Hr Hrc']; subst.
    inversion Hrc' as [|? ? ? ? Hc _]; subst.
    rewrite Hit by done. unfold window_sum, view_total.
    apply sum_upto_ext. intros a Ha. apply sum_upto_ext. intros d Hd'.
    assert (Hin : in_bounds (dims v) [r; c; a; d]).
    { rewrite Hdv. simpl. repeat constructor; lia. }
    destruct (window_cell _ _ _ _ _ (alloc_strides st Pr) Hv Hin) as [Ha' Hsrc].
    change (source_index (length [i; j]) [r; c; a; d])
      with [r + a; c + d] in Ha', Hsrc.
    transitivity (item Pr [r + a; c + d]).
    + simpl app. rewrite HitPb, HitPr.
      replace (r + 1 + a) with (r + a + 1) by lia.
      replace (c + 1 + d) with (c + d + 1) by lia.
      rewrite pad_lane_shift by done. f_equal.
      apply functional_extensionality. intros s.
      by apply pad_lane_shift.
    + unfold load at 1. cbn [item app].
      by rewrite Ha', alloc_lookup.
Qed.

Lemma pad_and_roll_totals_are_boxsum_witness :
  exists st' v res,
    pad_and_roll (fst (fresh grid23)) (snd (fresh grid23)) [3; 2] None
      (Some mode_reflect) = (st', Ok v) /\
    boxsum (load (fst (fresh grid23)) (snd (fresh grid23)))
      (Ints [3; 2]) true (Some mode_reflect) = Ok res /\
    dims v = shape res ++ [3; 2] /\
    forall r c, in_bounds (shape res) [r; c] ->
      item res [r; c] = view_total (load st' v) [] r c 3 2.
Proof.
  apply (pad_and_roll_totals_are_boxsum (fst (fresh grid23))
           (snd (fresh grid23)) 3 2 None mode_reflect 2 3);
    try reflexivity; try lia.
  apply reflect_shift_invariant.
Defined.
